(** * Metric names and submetrics (metrics/metric.go)

    A shallow embedding of [ParseMetricName], [newMetric] and
    [Metric.AddSubmetric], together with the parts of Go's [strings],
    [errors] and [fmt] packages they call.  Go strings are byte sequences;
    they are embedded as [string], whose characters are the 256 byte
    values.  Go [int] positions are embedded as [Z]. *)

From Stdlib Require Import ZArith Ascii String Lia.
From stdpp Require Import gmap strings list.

Open Scope Z_scope.

(** ** The functions of Go's [strings] package used by the source *)

Module GoStrings.

(** [len(s)] *)
Definition len (s : string) : Z := Z.of_nat (String.length s).

(** [s[i:j]].  Go panics unless [0 <= i <= j <= len(s)]; the two slices of
    the source are taken within these bounds
    ([ParseMetricName_slice_bounds] below). *)
Definition slice (s : string) (i j : Z) : string :=
  substring (Z.to_nat i) (Z.to_nat (j - i)) s.

Fixpoint index_byte (s : string) (c : ascii) : option nat :=
  match s with
  | EmptyString => None
  | String a s' =>
      if Ascii.eqb a c then Some O
      else match index_byte s' c with
           | Some i => Some (S i)
           | None => None
           end
  end.

Fixpoint last_index_byte (s : string) (c : ascii) : option nat :=
  match s with
  | EmptyString => None
  | String a s' =>
      match last_index_byte s' c with
      | Some i => Some (S i)
      | None => if Ascii.eqb a c then Some O else None
      end
  end.

Definition pos_or_minus1 (o : option nat) : Z :=
  match o with
  | Some i => Z.of_nat i
  | None => -1
  end.

(** [strings.IndexByte]: position of the first [c] in [s], or [-1]. *)
Definition IndexByte (s : string) (c : ascii) : Z := pos_or_minus1 (index_byte s c).

(** [strings.LastIndexByte]: position of the last [c] in [s], or [-1]. *)
Definition LastIndexByte (s : string) (c : ascii) : Z :=
  pos_or_minus1 (last_index_byte s c).

Definition cons_head (a : ascii) (l : list string) : list string :=
  match l with
  | x :: xs => String a x :: xs
  | [] => [String a EmptyString]
  end.

(** [strings.Split(s, sep)] for a one-byte separator: all the pieces of [s]
    between occurrences of [sep]; the empty string gives one empty piece. *)
Fixpoint Split (s : string) (sep : ascii) : list string :=
  match s with
  | EmptyString => [EmptyString]
  | String a s' =>
      if Ascii.eqb a sep then EmptyString :: Split s' sep
      else cons_head a (Split s' sep)
  end.

Fixpoint split_upto (s : string) (sep : ascii) (n : nat) {struct s}
  : list string :=
  match n with
  | O => []
  | S O => [s]
  | S (S _ as n') =>
      match s with
      | EmptyString => [EmptyString]
      | String a s' =>
          if Ascii.eqb a sep then EmptyString :: split_upto s' sep n'
          else cons_head a (split_upto s' sep n)
      end
  end.

(** [strings.SplitN(s, sep, n)] for a one-byte separator: at most [n] pieces
    when [n > 0] (the last one is the unsplit remainder), none when [n = 0],
    all of them when [n < 0]. *)
Definition SplitN (s : string) (sep : ascii) (n : Z) : list string :=
  if n =? 0 then []
  else if n <? 0 then Split s sep
  else split_upto s sep (Z.to_nat n).

Fixpoint byte_in (c : ascii) (cutset : string) : bool :=
  match cutset with
  | EmptyString => false
  | String a cs => Ascii.eqb a c || byte_in c cs
  end.

Fixpoint trim_left_bytes (s cutset : string) : string :=
  match s with
  | EmptyString => EmptyString
  | String a s' => if byte_in a cutset then trim_left_bytes s' cutset else s
  end.

Fixpoint trim_right_bytes (s cutset : string) : string :=
  match s with
  | EmptyString => EmptyString
  | String a s' =>
      match trim_right_bytes s' cutset with
      | EmptyString => if byte_in a cutset then EmptyString else String a EmptyString
      | r => String a r
      end
  end.

(** [strings.Trim(s, cutset)] for a cutset of ASCII bytes: every leading and
    every trailing byte of [s] that occurs in [cutset] is removed. *)
Definition Trim (s cutset : string) : string :=
  trim_left_bytes (trim_right_bytes s cutset) cutset.

(** White space as [unicode.IsSpace] sees it, on the UTF-8 bytes. *)
Definition ascii_space (c : N) : bool :=
  ((9 <=? c) && (c <=? 13) || (c =? 32))%N.

(** U+0085 and U+00A0 *)
Definition space2 (a b : N) : bool :=
  ((a =? 194) && ((b =? 133) || (b =? 160)))%N.

(** U+1680, U+2000..U+200A, U+2028, U+2029, U+202F, U+205F, U+3000 *)
Definition space3 (a b c : N) : bool :=
  ((a =? 225) && (b =? 154) && (c =? 128)
   || (a =? 226) && (b =? 128)
      && ((128 <=? c) && (c <=? 138) || (c =? 168) || (c =? 169) || (c =? 175))
   || (a =? 226) && (b =? 129) && (c =? 159)
   || (a =? 227) && (b =? 128) && (c =? 128))%N.

Fixpoint trim_left_space (s : string) : string :=
  match s with
  | EmptyString => EmptyString
  | String a t =>
      if ascii_space (N_of_ascii a) then trim_left_space t
      else
        match t with
        | EmptyString => s
        | String b t2 =>
            if space2 (N_of_ascii a) (N_of_ascii b) then trim_left_space t2
            else
              match t2 with
              | EmptyString => s
              | String c t3 =>
                  if space3 (N_of_ascii a) (N_of_ascii b) (N_of_ascii c)
                  then trim_left_space t3
                  else s
              end
        end
  end.

(** The same on the reversed string: the bytes of a rune come last first. *)
Fixpoint trim_left_space_rev (s : string) : string :=
  match s with
  | EmptyString => EmptyString
  | String a t =>
      if ascii_space (N_of_ascii a) then trim_left_space_rev t
      else
        match t with
        | EmptyString => s
        | String b t2 =>
            if space2 (N_of_ascii b) (N_of_ascii a) then trim_left_space_rev t2
            else
              match t2 with
              | EmptyString => s
              | String c t3 =>
                  if space3 (N_of_ascii c) (N_of_ascii b) (N_of_ascii a)
                  then trim_left_space_rev t3
                  else s
              end
        end
  end.

(** [strings.TrimSpace]: leading, then trailing white-space runes removed. *)
Definition TrimSpace (s : string) : string :=
  String.rev (trim_left_space_rev (String.rev (trim_left_space s))).

End GoStrings.

Import GoStrings.

(** ** Errors: [errors.New], [fmt.Errorf] with [%w], [errors.Is] *)

(** What [errors.New] returns: a pointer to a new object that holds the
    text.  Go compares two such errors as pointers, so [es_ptr] is the
    identity of the error and [es_text] plays no part in comparisons:
    [errors_New p text] is the error a call [errors.New(text)] returns
    when the object it allocates is at [p]. *)
Record errorString : Type := errors_New { es_ptr : N; es_text : string }.

(** An operand of [fmt.Errorf]: a string or an error. *)
Inductive fmt_arg (E : Type) : Type :=
  | arg_string (s : string)
  | arg_error (e : E).
Arguments arg_string {E} s.
Arguments arg_error {E} e.

(** An error value is one made by [errors.New] or one made by
    [fmt.Errorf]; the latter keeps its format and its operands. *)
#[warnings="-register-all"]
Inductive error : Type :=
  | error_of (s : errorString)
  | fmt_Errorf (format : string) (args : list (fmt_arg error)).

Coercion error_of : errorString >-> error.

(** The bytes that may stand between [%] and the verb: flags, width and
    precision. *)
Definition is_flag (c : ascii) : bool := byte_in c "+-# 0123456789.".

(** The verbs of a format that take an operand, in order.  [%%] is a
    literal percent sign and takes none; a [%] at the end has no verb.
    Explicit argument indexes and [*] are not modelled: the formats of
    the source have none. *)
Fixpoint fmt_verbs_from (in_verb : bool) (format : string) : list ascii :=
  match format with
  | EmptyString => []
  | String c rest =>
      if in_verb then
        if is_flag c then fmt_verbs_from true rest
        else if Ascii.eqb c "%" then fmt_verbs_from false rest
        else c :: fmt_verbs_from false rest
      else if Ascii.eqb c "%" then fmt_verbs_from true rest
      else fmt_verbs_from false rest
  end.

Definition fmt_verbs (format : string) : list ascii :=
  fmt_verbs_from false format.

(** The operands [fmt.Errorf] wraps: the error operands whose verb is
    [%w].  (With two or more of them this is Go 1.20 and later; the
    formats of the source have at most one.) *)
Fixpoint wrapped_operands (verbs : list ascii) (args : list (fmt_arg error))
  : list error :=
  match args, verbs with
  | a :: args', v :: verbs' =>
      match a with
      | arg_error e =>
          if Ascii.eqb v "w" then e :: wrapped_operands verbs' args'
          else wrapped_operands verbs' args'
      | arg_string _ => wrapped_operands verbs' args'
      end
  | _, _ => []
  end.

Definition wrapped (e : error) : list error :=
  match e with
  | error_of _ => []
  | fmt_Errorf format args => wrapped_operands (fmt_verbs format) args
  end.

(** [errors.Unwrap]: the one wrapped operand, if there is exactly one. *)
Definition Unwrap (e : error) : option error :=
  match wrapped e with
  | [x] => Some x
  | _ => None
  end.

(** [err == target] for a target made by [errors.New]: the same pointer.
    A value made by [fmt.Errorf] is a new object, never the one a call of
    [errors.New] returned. *)
Definition same_error (err : error) (target : errorString) : bool :=
  match err with
  | error_of s => N.eqb (es_ptr s) (es_ptr target)
  | fmt_Errorf _ _ => false
  end.

(** [errors.Is(err, target)] for a target made by [errors.New]: [target]
    is [err] or is in the chain of what [err] wraps. *)
Fixpoint errors_Is (err : error) (target : errorString) {struct err} : bool :=
  same_error err target ||
  match err with
  | error_of _ => false
  | fmt_Errorf format args =>
      (fix in_wrapped (verbs : list ascii) (l : list (fmt_arg error))
         {struct l} : bool :=
         match l, verbs with
         | a :: l', v :: verbs' =>
             match a with
             | arg_error e =>
                 if Ascii.eqb v "w"
                 then errors_Is e target || in_wrapped verbs' l'
                 else in_wrapped verbs' l'
             | arg_string _ => in_wrapped verbs' l'
             end
         | _, _ => false
         end) (fmt_verbs format) args
  end.

(** ** ParseMetricName *)

(** The error the package makes when it is initialised, by its one call
    of [errors.New]. *)
Definition ErrMetricNameParsing : errorString :=
  errors_New 0 "parsing metric name failed".

Definition errUnmatched (name : string) : error :=
  fmt_Errorf "%w, metric %q has unmatched opening/close curly brace"
    [arg_error (ErrMetricNameParsing : error); arg_string name].

Definition errReversed (name : string) : error :=
  fmt_Errorf "%w, metric %q closing curly brace appears before opening one"
    [arg_error (ErrMetricNameParsing : error); arg_string name].

Definition errNoClosingLast (name : string) : error :=
  fmt_Errorf "%w, metric %q lacks a closing curly brace in its last position"
    [arg_error (ErrMetricNameParsing : error); arg_string name].

Definition errMalformedTag (t : string) : error :=
  fmt_Errorf "%w, metric %q tag expression is malformed"
    [arg_error (ErrMetricNameParsing : error); arg_string t].

(** The loop over the tag definitions: the first malformed one stops it
    with an error; the others are replaced by their trimmed text. *)
Fixpoint check_tags (tags : list string) : error + list string :=
  match tags with
  | [] => inr []
  | t :: rest =>
      let keyValue := SplitN t ":" 2 in
      if negb (Z.of_nat (length keyValue) =? 2)
         || String.eqb (nth 1 keyValue EmptyString) EmptyString
      then inl (errMalformedTag t)
      else match check_tags rest with
           | inl e => inl e
           | inr rest' => inr (TrimSpace t :: rest')
           end
  end.

(** The three results of the Go function: name, tags (the nil slice is the
    empty list) and error ([None] is nil). *)
Definition ParseMetricName (name : string)
  : string * list string * option error :=
  let openingTokenPos := IndexByte name "{" in
  let closingTokenPos := LastIndexByte name "}" in
  let containsOpeningToken := negb (openingTokenPos =? -1) in
  let containsClosingToken := negb (closingTokenPos =? -1) in
  if negb containsOpeningToken && negb containsClosingToken then
    (name, [], None)
  else if (containsOpeningToken && negb containsClosingToken)
          || (negb containsOpeningToken && containsClosingToken) then
    (EmptyString, [], Some (errUnmatched name))
  else if closingTokenPos <? openingTokenPos then
    (EmptyString, [], Some (errReversed name))
  else if negb (closingTokenPos =? len name - 1) then
    (EmptyString, [], Some (errNoClosingLast name))
  else
    let tags := Split (slice name (openingTokenPos + 1) closingTokenPos) "," in
    match check_tags tags with
    | inl e => (EmptyString, [], Some e)
    | inr tags' => (slice name 0 openingTokenPos, tags', None)
    end.

(** ** Metrics, submetrics and the store they live in *)

(** Modelled from the spec: the declaration of [MetricType] is not part of
    metric.go.  The four kinds are the ones [newMetric] names; any other
    value of the underlying integer type takes its [default] branch. *)
Inductive MetricType : Type :=
  | Counter | Gauge | Trend | Rate
  | OtherMetricType (n : Z).

(** Modelled from the spec: the declaration of [ValueType] is not part of
    metric.go; [Default] is the value [newMetric] falls back to. *)
Inductive ValueType : Type := Default | Time | Data.

(** Modelled from the spec: the [Sink] interface and the four sink types
    are not part of metric.go.  [newMetric] only creates the empty sink of
    the kind, so a sink is represented by which of the four it is. *)
Inductive Sink : Type := CounterSink | GaugeSink | TrendSink | RateSink.

(** Modelled from the spec: the [Thresholds] type is not part of metric.go
    and the functions here only ever leave it at its zero value; it is
    represented by the list of threshold expressions, empty when zero. *)
Definition Thresholds : Type := list string.

(** [null.Bool]: a boolean that may be absent; the zero value is absent. *)
Definition null_Bool : Type := option bool.

(** Modelled from the spec: the [SampleTags] type and its operations are
    not part of metric.go.  A tag set is an unordered key-to-value mapping,
    built from a mapping and compared by an order-independent equality. *)
Abbreviation SampleTags := (gmap string string) (only parsing).

(** Modelled from the spec: construction of a tag set from a mapping. *)
Definition IntoSampleTags (data : gmap string string) : SampleTags := data.

(** Modelled from the spec: semantic, order-independent equality. *)
Definition IsEqual (st other : SampleTags) : bool := bool_decide (st = other).

(** A pointer is nil or an address in the store. *)
Definition ptr : Type := option nat.

Module Metric.
Record t : Type := mk {
  Name : string;
  Type_ : MetricType;
  Contains : ValueType;
  Tainted : null_Bool;
  Thresholds : Thresholds;
  Submetrics : list ptr;
  Sub : ptr;
  Sink : option Sink;
  Observed : bool
}.

Definition set_Sub (m : t) (p : ptr) : t :=
  mk (Name m) (Type_ m) (Contains m) (Tainted m) (Thresholds m)
     (Submetrics m) p (Sink m) (Observed m).

Definition set_Submetrics (m : t) (l : list ptr) : t :=
  mk (Name m) (Type_ m) (Contains m) (Tainted m) (Thresholds m)
     l (Sub m) (Sink m) (Observed m).
End Metric.

Module Submetric.
Record t : Type := mk {
  Name : string;
  Suffix : string;
  Tags : SampleTags;
  Metric : ptr;
  Parent : ptr
}.

Definition set_Metric (s : t) (p : ptr) : t :=
  mk (Name s) (Suffix s) (Tags s) p (Parent s).
End Submetric.

(** The store: the [Metric] and the [Submetric] objects allocated so far,
    each addressed by its position. *)
Record heap : Type := mkHeap {
  metrics : list Metric.t;
  submetrics : list Submetric.t
}.

Definition load_metric (h : heap) (p : ptr) : option Metric.t :=
  match p with
  | Some a => metrics h !! a
  | None => None
  end.

Definition load_submetric (h : heap) (p : ptr) : option Submetric.t :=
  match p with
  | Some a => submetrics h !! a
  | None => None
  end.

Definition alloc_metric (h : heap) (m : Metric.t) : nat * heap :=
  (length (metrics h), mkHeap (metrics h ++ [m]) (submetrics h)).

Definition alloc_submetric (h : heap) (s : Submetric.t) : nat * heap :=
  (length (submetrics h), mkHeap (metrics h) (submetrics h ++ [s])).

Definition update_metric (h : heap) (a : nat) (f : Metric.t -> Metric.t)
  : heap :=
  mkHeap (alter f a (metrics h)) (submetrics h).

Definition update_submetric (h : heap) (a : nat)
  (f : Submetric.t -> Submetric.t) : heap :=
  mkHeap (metrics h) (alter f a (submetrics h)).

(** ** newMetric *)

(** The [switch] on the kind: the sink created for it, or none in the
    [default] branch. *)
Definition sink_for (mt : MetricType) : option Sink :=
  match mt with
  | Counter => Some CounterSink
  | Gauge => Some GaugeSink
  | Trend => Some TrendSink
  | Rate => Some RateSink
  | _ => None
  end.

(** The result is nil for a kind outside the four supported ones. *)
Definition newMetric (name : string) (mt : MetricType) (vt : list ValueType)
  (h : heap) : ptr * heap :=
  let valueType :=
    if 0 <? Z.of_nat (length vt) then nth 0 vt Default else Default in
  match sink_for mt with
  | None => (None, h)
  | Some sink =>
      let '(a, h') :=
        alloc_metric h
          (Metric.mk name mt valueType None [] [] None (Some sink) false) in
      (Some a, h')
  end.

(** ** AddSubmetric *)

(** The cutset of the two quote characters. *)
Definition quotes : string := String "034"%char (String "039"%char EmptyString).

(** One turn of the loop over the comma-separated pieces. *)
Definition add_raw_tag (rawTags : gmap string string) (kv : string)
  : gmap string string :=
  if String.eqb kv EmptyString then rawTags
  else
    let parts := SplitN kv ":" 2 in
    let key := Trim (TrimSpace (nth 0 parts EmptyString)) quotes in
    if negb (Z.of_nat (length parts) =? 2) then <[key := EmptyString]> rawTags
    else
      let value := Trim (TrimSpace (nth 1 parts EmptyString)) quotes in
      <[key := value]> rawTags.

(** The pieces [kvs] and the mapping [rawTags] the loop fills from them. *)
Definition raw_tags (keyValues : string) : gmap string string :=
  let kvs := Split keyValues "," in
  fold_left add_raw_tag kvs ∅.

(** The scan of the parent's submetrics for one with equal tags. *)
Inductive scan : Type :=
  | ScanPanic
  | ScanFound (sm : Submetric.t)
  | ScanNone.

Fixpoint find_equal (h : heap) (sms : list ptr) (tags : SampleTags) : scan :=
  match sms with
  | [] => ScanNone
  | p :: rest =>
      match load_submetric h p with
      | None => ScanPanic
      | Some sm =>
          if IsEqual (Submetric.Tags sm) tags then ScanFound sm
          else find_equal h rest tags
      end
  end.

Definition errEmptyCriteria (metricName : string) : error :=
  fmt_Errorf "submetric criteria for metric '%s' cannot be empty"
    [arg_string metricName].

Definition errDuplicate (keyValues metricName smName : string) : error :=
  fmt_Errorf "sub-metric with params '%s' already exists for metric %s: %s"
    [arg_string keyValues; arg_string metricName; arg_string smName].

(** What a call does: it returns its two results, or it panics (a nil
    pointer is dereferenced). *)
Inductive result : Type :=
  | Return (sm : ptr) (err : option error)
  | Panic.

Definition AddSubmetric (m : ptr) (keyValues : string) (h : heap)
  : result * heap :=
  let keyValues := TrimSpace keyValues in
  match m with
  | None => (Panic, h)
  | Some pa =>
      match metrics h !! pa with
      | None => (Panic, h)
      | Some pm =>
          if len keyValues =? 0 then
            (Return None (Some (errEmptyCriteria (Metric.Name pm))), h)
          else
            let rawTags := raw_tags keyValues in
            let tags := IntoSampleTags rawTags in
            match find_equal h (Metric.Submetrics pm) tags with
            | ScanPanic => (Panic, h)
            | ScanFound sm =>
                (Return None
                   (Some (errDuplicate keyValues (Metric.Name pm)
                            (Submetric.Name sm))), h)
            | ScanNone =>
                let sub :=
                  Submetric.mk (Metric.Name pm +:+ "{" +:+ keyValues +:+ "}")
                    keyValues tags None m in
                let '(sa, h1) := alloc_submetric h sub in
                let subMetric := Some sa in
                match newMetric (Submetric.Name sub) (Metric.Type_ pm)
                        [Metric.Contains pm] h1 with
                | (None, h2) => (Panic, h2)
                | (Some ma, h2) =>
                    let h3 :=
                      update_metric h2 ma
                        (fun x => Metric.set_Sub x subMetric) in
                    let h4 :=
                      update_submetric h3 sa
                        (fun x => Submetric.set_Metric x (Some ma)) in
                    let h5 :=
                      update_metric h4 pa
                        (fun x => Metric.set_Submetrics x
                                    (Metric.Submetrics x ++ [subMetric])) in
                    (Return subMetric None, h5)
                end
            end
      end
  end.

(** ** Vocabulary of the statements *)

(** [no_byte c s]: the byte [c] does not occur in [s]. *)
Definition no_byte (c : ascii) (s : string) : bool := negb (byte_in c s).

(** [strings.Join(l, sep)] for a one-byte separator. *)
Definition Join (l : list string) (sep : ascii) : string :=
  String.concat (String sep EmptyString) l.

(** A tag definition that has a [:] and whose first [:] is not its last
    byte. *)
Definition tag_ok (t : string) : bool :=
  match index_byte t ":" with
  | Some i => negb (S i =? String.length t)%nat
  | None => false
  end.

(** The submetrics a list of pointers leads to, if all can be loaded. *)
Definition loaded_submetrics (h : heap) (ptrs : list ptr)
  : option (list Submetric.t) :=
  mapM (load_submetric h) ptrs.

(** No metric of the store has two submetrics with equal tag sets. *)
Definition distinct_tags (h : heap) : Prop :=
  forall (a : nat) (pm : Metric.t),
    metrics h !! a = Some pm ->
    exists subs, loaded_submetrics h (Metric.Submetrics pm) = Some subs
                 /\ NoDup (Submetric.Tags <$> subs).

(** The stores that calls of [newMetric] and [AddSubmetric] lead to. *)
Inductive reachable : heap -> Prop :=
  | reachable_empty : reachable (mkHeap [] [])
  | reachable_newMetric h name mt vt :
      reachable h -> reachable (snd (newMetric name mt vt h))
  | reachable_AddSubmetric h m keyValues :
      reachable h -> reachable (snd (AddSubmetric m keyValues h)).

(** A string made of commas only. *)
Fixpoint only_commas (s : string) : bool :=
  match s with
  | EmptyString => true
  | String a s' => Ascii.eqb a "," && only_commas s'
  end.

(** The quote-stripping the specification describes: one layer of the same
    quote character at both ends is removed, and nothing else. *)
Definition spec_unquote (s : string) : string :=
  match s with
  | String q rest =>
      if (Ascii.eqb q "'" || Ascii.eqb q "034")
         && (1 <=? String.length rest)%nat
         && String.eqb (substring (String.length rest - 1) 1 rest)
              (String q EmptyString)
      then substring 0 (String.length rest - 1) rest
      else s
  | EmptyString => EmptyString
  end.

(** Every byte of [s] occurs in [cutset]. *)
Fixpoint all_in (cutset s : string) : bool :=
  match s with
  | EmptyString => true
  | String a s' => byte_in a cutset && all_in cutset s'
  end.

Definition first_byte (s : string) : option ascii :=
  match s with
  | EmptyString => None
  | String a _ => Some a
  end.

Fixpoint last_byte (s : string) : option ascii :=
  match s with
  | EmptyString => None
  | String a EmptyString => Some a
  | String _ s' => last_byte s'
  end.

(** A store with one metric, [req], a trend of times, and no submetric. *)
Definition example_store : heap :=
  snd (newMetric "req" Trend [Time] (mkHeap [] [])).

(** The same store after the submetric [status:200] was added to [req]. *)
Definition example_store_1 : heap :=
  snd (AddSubmetric (Some 0%nat) "status:200" example_store).

(** ** Vocabulary of the further properties *)

(** The parse of [name] fails with the malformed-tag error. *)
Definition fails_malformed (name : string) : Prop :=
  exists t, ParseMetricName name
            = (EmptyString, [], Some (errMalformedTag t)).

(** The key and the value that one non-empty piece of the clause stands
    for: the two expressions of the loop body of AddSubmetric. *)
Definition seg_key (kv : string) : string :=
  Trim (TrimSpace (nth 0 (SplitN kv ":" 2) EmptyString)) quotes.

Definition seg_value (kv : string) : string :=
  let parts := SplitN kv ":" 2 in
  if negb (Z.of_nat (length parts) =? 2) then EmptyString
  else Trim (TrimSpace (nth 1 parts EmptyString)) quotes.

(** A run of calls of AddSubmetric on one parent, in order, with the
    result of each. *)
Fixpoint add_all (m : ptr) (kvs : list string) (h : heap)
  : list result * heap :=
  match kvs with
  | [] => ([], h)
  | kv :: rest =>
      let '(r, h1) := AddSubmetric m kv h in
      let '(rs, h2) := add_all m rest h1 in
      (r :: rs, h2)
  end.

(** The call returned a submetric and no error. *)
Definition succeeded (r : result) : bool :=
  match r with
  | Return (Some _) None => true
  | _ => false
  end.

(** The objects a successful call creates for the trimmed clause [kv] on
    the parent [pm] at address [pa], and the store it leaves. *)
Definition new_submetric (pa : nat) (pm : Metric.t) (kv : string)
  (backing : ptr) : Submetric.t :=
  Submetric.mk (Metric.Name pm +:+ "{" +:+ kv +:+ "}") kv
    (IntoSampleTags (raw_tags kv)) backing (Some pa).

Definition new_backing (pm : Metric.t) (kv : string) (sa : nat) (sink : Sink)
  : Metric.t :=
  Metric.mk (Metric.Name pm +:+ "{" +:+ kv +:+ "}") (Metric.Type_ pm)
    (Metric.Contains pm) None [] [] (Some sa) (Some sink) false.

Definition store_after_add (h : heap) (pa : nat) (pm : Metric.t)
  (kv : string) (sink : Sink) : heap :=
  let sa := length (submetrics h) in
  let ma := length (metrics h) in
  mkHeap
    (<[pa := Metric.set_Submetrics pm (Metric.Submetrics pm ++ [Some sa])]>
       (metrics h)
     ++ [new_backing pm kv sa sink])
    (submetrics h ++ [new_submetric pa pm kv (Some ma)]).

(** Every metric of the store has one of the four supported kinds and the
    sink of its kind. *)
Definition kinds_supported (h : heap) : Prop :=
  forall (a : nat) (pm : Metric.t),
    metrics h !! a = Some pm ->
    exists sink, sink_for (Metric.Type_ pm) = Some sink
                 /\ Metric.Sink pm = Some sink.

(** The pointers of the store agree with each other: each entry of a
    Submetrics list is a submetric whose Parent is that metric; each
    submetric is in the list of its Parent and has a backing Metric whose
    Sub points back to it; and a metric with a Sub is the backing Metric of
    that submetric. *)
Definition links_agree (h : heap) : Prop :=
  (forall (pa : nat) (pm : Metric.t) (p : ptr),
     metrics h !! pa = Some pm -> p ∈ Metric.Submetrics pm ->
     exists sa sub,
       p = Some sa /\ submetrics h !! sa = Some sub
       /\ Submetric.Parent sub = Some pa)
  /\ (forall (sa : nat) (sub : Submetric.t),
        submetrics h !! sa = Some sub ->
        exists pa pm ma bm,
          Submetric.Parent sub = Some pa /\ metrics h !! pa = Some pm
          /\ Some sa ∈ Metric.Submetrics pm
          /\ Submetric.Metric sub = Some ma /\ metrics h !! ma = Some bm
          /\ Metric.Sub bm = Some sa)
  /\ (forall (ma : nat) (bm : Metric.t) (sa : nat),
        metrics h !! ma = Some bm -> Metric.Sub bm = Some sa ->
        exists sub,
          submetrics h !! sa = Some sub /\ Submetric.Metric sub = Some ma).

(** Each submetric is named after its parent and its clause, carries the
    tag mapping of its clause, and has a backing metric of its own name
    and of its parent's kind and value type. *)
Definition submetrics_match (h : heap) : Prop :=
  forall (sa pa ma : nat) (sub : Submetric.t) (pm bm : Metric.t),
    submetrics h !! sa = Some sub ->
    Submetric.Parent sub = Some pa -> metrics h !! pa = Some pm ->
    Submetric.Metric sub = Some ma -> metrics h !! ma = Some bm ->
    Submetric.Name sub
    = Metric.Name pm +:+ "{" +:+ Submetric.Suffix sub +:+ "}"
    /\ Submetric.Suffix sub <> EmptyString
    /\ Submetric.Tags sub = IntoSampleTags (raw_tags (Submetric.Suffix sub))
    /\ Metric.Name bm = Submetric.Name sub
    /\ Metric.Type_ bm = Metric.Type_ pm
    /\ Metric.Contains bm = Metric.Contains pm.

Definition well_linked (h : heap) : Prop :=
  kinds_supported h /\ links_agree h /\ submetrics_match h.

(** [s] begins with a white-space rune. *)
Definition lead_space (s : string) : bool :=
  match s with
  | EmptyString => false
  | String a t =>
      ascii_space (N_of_ascii a)
      || match t with
         | EmptyString => false
         | String b t2 =>
             space2 (N_of_ascii a) (N_of_ascii b)
             || match t2 with
                | EmptyString => false
                | String c _ =>
                    space3 (N_of_ascii a) (N_of_ascii b) (N_of_ascii c)
                end
         end
  end.

(** The reversed string [s] begins with a reversed white-space rune, that
    is, the string ends with a white-space rune. *)
Definition lead_space_rev (s : string) : bool :=
  match s with
  | EmptyString => false
  | String a t =>
      ascii_space (N_of_ascii a)
      || match t with
         | EmptyString => false
         | String b t2 =>
             space2 (N_of_ascii b) (N_of_ascii a)
             || match t2 with
                | EmptyString => false
                | String c _ =>
                    space3 (N_of_ascii c) (N_of_ascii b) (N_of_ascii a)
                end
         end
  end.


(** The example store after the submetric [method:GET] was added as well. *)
Definition example_store_2 : heap :=
  snd (AddSubmetric (Some 0%nat) "method:GET" example_store_1).

(** * Properties *)

(** ** Strings *)

#[local] Arguments String.append : simpl nomatch.

Section StringFacts.

Implicit Types (s a b : string) (c : ascii).

Lemma app_assoc_s a b s : (a +:+ b) +:+ s = a +:+ (b +:+ s).
Proof. induction a as [|x a IH]; simpl; [done | by rewrite IH]. Qed.

Lemma length_app_s a b :
  String.length (a +:+ b) = (String.length a + String.length b)%nat.
Proof. induction a as [|x a IH]; simpl; [done | by rewrite IH]. Qed.

Lemma len_app a b : len (a +:+ b) = len a + len b.
Proof. unfold len. rewrite length_app_s. lia. Qed.

Lemma len_nonneg s : 0 <= len s.
Proof. unfold len. lia. Qed.

Lemma len_zero s : len s = 0 <-> s = EmptyString.
Proof.
  unfold len. destruct s; simpl; split; intros H; try done; lia.
Qed.

Lemma byte_in_app c a b : byte_in c (a +:+ b) = byte_in c a || byte_in c b.
Proof.
  induction a as [|x a IH]; simpl; [done |].
  rewrite IH. by rewrite orb_assoc.
Qed.

Lemma index_byte_None s c : index_byte s c = None <-> byte_in c s = false.
Proof.
  induction s as [|x s IH]; simpl; [done |].
  destruct (Ascii.eqb x c); simpl; [done |].
  destruct (index_byte s c); [| tauto].
  split; [done |]. intros H. apply IH in H. done.
Qed.

Lemma last_index_byte_None s c :
  last_index_byte s c = None <-> byte_in c s = false.
Proof.
  induction s as [|x s IH]; simpl; [done |].
  destruct (last_index_byte s c).
  - split; [done |]. intros H. apply orb_false_elim in H as [_ H].
    apply IH in H. done.
  - destruct IH as [IH _]. rewrite IH by done.
    destruct (Ascii.eqb x c); simpl; split; done.
Qed.

Lemma index_byte_app a c b :
  byte_in c a = false ->
  index_byte (a +:+ String c b) c = Some (String.length a).
Proof.
  induction a as [|x a IH]; simpl; intros H.
  - by rewrite Ascii.eqb_refl.
  - apply orb_false_elim in H as [Hx Ha]. rewrite Hx, IH; done.
Qed.

Lemma last_index_byte_app a c b :
  byte_in c b = false ->
  last_index_byte (a +:+ String c b) c = Some (String.length a).
Proof.
  intros Hb. induction a as [|x a IH]; simpl.
  - apply last_index_byte_None in Hb. rewrite Hb.
    by rewrite Ascii.eqb_refl.
  - by rewrite IH.
Qed.

Lemma index_byte_Some s c i :
  index_byte s c = Some i ->
  exists a b, s = a +:+ String c b /\ byte_in c a = false
              /\ String.length a = i.
Proof.
  revert i. induction s as [|x s IH]; simpl; intros i H; [done |].
  destruct (Ascii.eqb x c) eqn:E.
  - apply Ascii.eqb_eq in E. subst x. injection H as <-.
    by exists EmptyString, s.
  - destruct (index_byte s c) as [j|]; [| done]. injection H as <-.
    destruct (IH j eq_refl) as (a & b & -> & Ha & Hl).
    exists (String x a), b. simpl. rewrite E, Ha, Hl. done.
Qed.

Lemma last_index_byte_Some s c i :
  last_index_byte s c = Some i ->
  exists a b, s = a +:+ String c b /\ byte_in c b = false
              /\ String.length a = i.
Proof.
  revert i. induction s as [|x s IH]; simpl; intros i H; [done |].
  destruct (last_index_byte s c) as [j|] eqn:E.
  - injection H as <-.
    destruct (IH j eq_refl) as (a & b & -> & Hb & Hl).
    exists (String x a), b. simpl. by rewrite Hl.
  - destruct (Ascii.eqb x c) eqn:Ex; [| done]. injection H as <-.
    apply Ascii.eqb_eq in Ex. subst x.
    apply last_index_byte_None in E. by exists EmptyString, s.
Qed.

Lemma substring_prefix a b :
  substring 0 (String.length a) (a +:+ b) = a.
Proof.
  induction a as [|x a IH]; simpl.
  - by destruct b.
  - by rewrite IH.
Qed.

Lemma substring_skip a b n m :
  substring (String.length a + n) m (a +:+ b) = substring n m b.
Proof. induction a as [|x a IH]; simpl; done. Qed.

Lemma slice_prefix a b : slice (a +:+ b) 0 (len a) = a.
Proof.
  unfold slice, len. simpl. rewrite Z.sub_0_r, Nat2Z.id.
  apply substring_prefix.
Qed.

Lemma slice_middle a c b d :
  slice (a +:+ String c (b +:+ d)) (len a + 1) (len a + 1 + len b) = b.
Proof.
  unfold slice, len.
  replace (Z.to_nat (Z.of_nat (String.length a) + 1))
    with (String.length a + 1)%nat by lia.
  replace (Z.to_nat (_ - _)) with (String.length b) by lia.
  rewrite substring_skip. simpl. apply substring_prefix.
Qed.

End StringFacts.

(** ** Splitting *)

Section SplitFacts.

Implicit Types (s a b k v t : string) (c sep : ascii).

Lemma Split_no_sep s sep : byte_in sep s = false -> Split s sep = [s].
Proof.
  induction s as [|x s IH]; simpl; intros H; [done |].
  apply orb_false_elim in H as [Hx Hs]. rewrite Hx, IH; done.
Qed.

Lemma Split_app a sep b :
  byte_in sep a = false -> Split (a +:+ String sep b) sep = a :: Split b sep.
Proof.
  induction a as [|x a IH]; simpl; intros H.
  - by rewrite Ascii.eqb_refl.
  - apply orb_false_elim in H as [Hx Ha]. rewrite Hx, IH; done.
Qed.

Lemma Split_Join l sep :
  l <> [] -> forallb (no_byte sep) l = true -> Split (Join l sep) sep = l.
Proof.
  unfold Join. induction l as [|x l IH]; intros Hne Hall; [done |].
  simpl in Hall. apply andb_true_iff in Hall as [Hx Hl].
  apply negb_true_iff in Hx.
  destruct l as [|y l]; simpl.
  - by apply Split_no_sep.
  - rewrite Split_app by done. f_equal. by apply IH.
Qed.

Lemma split_upto_2_no_sep s sep :
  byte_in sep s = false -> split_upto s sep 2 = [s].
Proof.
  induction s as [|x s IH]; simpl; intros H; [done |].
  apply orb_false_elim in H as [Hx Hs]. rewrite Hx, IH; done.
Qed.

Lemma split_upto_2_app k sep v :
  byte_in sep k = false -> split_upto (k +:+ String sep v) sep 2 = [k; v].
Proof.
  induction k as [|x k IH]; simpl; intros H.
  - rewrite Ascii.eqb_refl. by destruct v.
  - apply orb_false_elim in H as [Hx Hk]. rewrite Hx, IH; done.
Qed.

Lemma tag_ok_true t :
  tag_ok t = true <->
  exists k v, t = k +:+ String ":" v /\ byte_in ":" k = false
              /\ v <> EmptyString.
Proof.
  unfold tag_ok. split.
  - destruct (index_byte t ":") as [i|] eqn:E; [| done].
    apply index_byte_Some in E as (k & v & -> & Hk & <-).
    intros H. exists k, v. split_and!; [done.. |]. intros ->.
    rewrite length_app_s in H. cbn [String.length] in H.
    apply negb_true_iff, Nat.eqb_neq in H. lia.
  - intros (k & v & -> & Hk & Hv). rewrite index_byte_app by done.
    rewrite length_app_s. cbn [String.length].
    apply negb_true_iff, Nat.eqb_neq.
    destruct v; [done | cbn [String.length]; lia].
Qed.

Lemma tag_ok_false t :
  tag_ok t = false <->
  byte_in ":" t = false
  \/ exists k, t = k +:+ String ":" EmptyString /\ byte_in ":" k = false.
Proof.
  unfold tag_ok. split.
  - destruct (index_byte t ":") as [i|] eqn:E.
    + apply index_byte_Some in E as (k & v & -> & Hk & <-).
      intros H. right. exists k. split; [| done].
      apply negb_false_iff, Nat.eqb_eq in H.
      rewrite length_app_s in H. cbn [String.length] in H.
      destruct v; [done | cbn [String.length] in H; lia].
    + intros _. left. by apply index_byte_None.
  - intros [H | (k & -> & Hk)].
    + apply index_byte_None in H. by rewrite H.
    + rewrite index_byte_app by done. rewrite length_app_s.
      cbn [String.length]. apply negb_false_iff, Nat.eqb_eq. lia.
Qed.

Lemma check_tags_cons_ok t rest :
  tag_ok t = true ->
  check_tags (t :: rest) =
    match check_tags rest with
    | inl e => inl e
    | inr rest' => inr (TrimSpace t :: rest')
    end.
Proof.
  intros (k & v & -> & Hk & Hv)%tag_ok_true.
  cbn [check_tags]. unfold SplitN. simpl Z.eqb. simpl Z.ltb. cbv iota.
  change (Z.to_nat 2) with 2%nat. rewrite split_upto_2_app by done.
  simpl. destruct v; done.
Qed.

Lemma check_tags_cons_bad t rest :
  tag_ok t = false -> check_tags (t :: rest) = inl (errMalformedTag t).
Proof.
  intros H. cbn [check_tags]. unfold SplitN. simpl Z.eqb. simpl Z.ltb.
  cbv iota. change (Z.to_nat 2) with 2%nat.
  apply tag_ok_false in H as [H | (k & -> & Hk)].
  - by rewrite split_upto_2_no_sep.
  - by rewrite split_upto_2_app.
Qed.

Lemma check_tags_all_ok l :
  forallb tag_ok l = true -> check_tags l = inr (map TrimSpace l).
Proof.
  induction l as [|t l IH]; intros H; [done |].
  simpl in H. apply andb_true_iff in H as [Ht Hl].
  rewrite check_tags_cons_ok, IH; done.
Qed.

Lemma check_tags_error l e :
  check_tags l = inl e -> exists t, t ∈ l /\ e = errMalformedTag t.
Proof.
  induction l as [|t l IH]; [done |].
  destruct (tag_ok t) eqn:Ht.
  - rewrite check_tags_cons_ok by done.
    destruct (check_tags l) as [e'|]; [| done].
    intros [= <-]. destruct (IH eq_refl) as (t' & Hin & ->).
    exists t'. split; [apply elem_of_cons; by right | done].
  - rewrite check_tags_cons_bad by done. intros [= <-].
    exists t. split; [apply elem_of_cons; by left | done].
Qed.

End SplitFacts.

(** ** ParseMetricName on a name with braces in place *)

Lemma ParseMetricName_braced (base body : string) :
  byte_in "{" base = false ->
  ParseMetricName (base +:+ "{" +:+ body +:+ "}") =
    match check_tags (Split body ",") with
    | inl e => (EmptyString, [], Some e)
    | inr tags => (base, tags, None)
    end.
Proof.
  intros Hbase. unfold ParseMetricName, IndexByte, LastIndexByte.
  simpl String.append.
  rewrite index_byte_app by done.
  assert (Hlast : last_index_byte (base +:+ String "{" (body +:+ "}")) "}"
                  = Some (String.length base + 1 + String.length body)%nat).
  { change (String "{" (body +:+ "}")) with ("{" +:+ (body +:+ "}")).
    rewrite <- !app_assoc_s.
    rewrite last_index_byte_app by done.
    by rewrite !length_app_s. }
  rewrite Hlast. simpl pos_or_minus1.
  assert (Hlen : len (base +:+ String "{" (body +:+ "}"))
                 = len base + 1 + len body + 1).
  { change (String "{" (body +:+ "}")) with ("{" +:+ (body +:+ "}")).
    rewrite !len_app. unfold len. simpl. lia. }
  rewrite Hlen.
  replace (Z.of_nat (String.length base + 1 + String.length body))
    with (len base + 1 + len body) by (unfold len; lia).
  fold (len base).
  pose proof (len_nonneg base). pose proof (len_nonneg body).
  replace (len base =? -1) with false by (symmetry; apply Z.eqb_neq; lia).
  replace (len base + 1 + len body =? -1) with false
    by (symmetry; apply Z.eqb_neq; lia).
  replace (len base + 1 + len body <? len base) with false
    by (symmetry; apply Z.ltb_ge; lia).
  replace (len base + 1 + len body =? len base + 1 + len body + 1 - 1)
    with true by (symmetry; apply Z.eqb_eq; lia).
  simpl. rewrite slice_middle, slice_prefix. done.
Qed.

Lemma ParseMetricName_cases (name : string) :
  ParseMetricName name =
    match index_byte name "{", last_index_byte name "}" with
    | None, None => (name, [], None)
    | Some _, None | None, Some _ =>
        (EmptyString, [], Some (errUnmatched name))
    | Some i, Some j =>
        if (j <? i)%nat then (EmptyString, [], Some (errReversed name))
        else if negb (S j =? String.length name)%nat then
          (EmptyString, [], Some (errNoClosingLast name))
        else
          match check_tags
                  (Split (slice name (Z.of_nat i + 1) (Z.of_nat j)) ",") with
          | inl e => (EmptyString, [], Some e)
          | inr tags => (slice name 0 (Z.of_nat i), tags, None)
          end
    end.
Proof.
  unfold ParseMetricName, IndexByte, LastIndexByte, len.
  destruct (index_byte name "{") as [i|], (last_index_byte name "}") as [j|];
    cbn [pos_or_minus1]; try done.
  - replace (Z.of_nat i =? -1) with false by (symmetry; apply Z.eqb_neq; lia).
    replace (Z.of_nat j =? -1) with false by (symmetry; apply Z.eqb_neq; lia).
    cbn [negb andb orb].
    destruct (Nat.ltb_spec j i).
    + replace (Z.of_nat j <? Z.of_nat i) with true
        by (symmetry; apply Z.ltb_lt; lia). done.
    + replace (Z.of_nat j <? Z.of_nat i) with false
        by (symmetry; apply Z.ltb_ge; lia).
      destruct (Nat.eqb_spec (S j) (String.length name)).
      * replace (Z.of_nat j =? Z.of_nat (String.length name) - 1) with true
          by (symmetry; apply Z.eqb_eq; lia). done.
      * replace (Z.of_nat j =? Z.of_nat (String.length name) - 1) with false
          by (symmetry; apply Z.eqb_neq; lia). done.
  - replace (Z.of_nat i =? -1) with false by (symmetry; apply Z.eqb_neq; lia).
    done.
  - replace (Z.of_nat j =? -1) with false by (symmetry; apply Z.eqb_neq; lia).
    done.
Qed.

Lemma get_app_length (a : string) (c : ascii) (b : string) :
  String.get (String.length a) (a +:+ String c b) = Some c.
Proof. induction a as [|x a IH]; simpl; done. Qed.

(** Where ParseMetricName slices the name, the bounds are in range. *)
Lemma ParseMetricName_slice_bounds (name : string) (i j : nat) :
  index_byte name "{" = Some i ->
  last_index_byte name "}" = Some j ->
  (j <? i)%nat = false ->
  (i + 1 <= j < String.length name)%nat.
Proof.
  intros (a & b & Ha & _ & Hi)%index_byte_Some
         (a' & b' & Ha' & _ & Hj)%last_index_byte_Some Hlt.
  apply Nat.ltb_ge in Hlt.
  assert (i <> j) as Hne.
  { intros ->. pose proof (get_app_length a "{" b) as G.
    pose proof (get_app_length a' "}" b') as G'.
    rewrite <- Ha, Hi in G. rewrite <- Ha', Hj, G in G'. done. }
  split; [lia |]. rewrite Ha', length_app_s. cbn [String.length]. lia.
Qed.

(** [errors.Is] looks at the error itself and then at what it wraps. *)
Lemma errors_Is_wrapped (err : error) (target : errorString) :
  errors_Is err target =
    same_error err target
    || existsb (fun e => errors_Is e target) (wrapped err).
Proof.
  destruct err as [s | format args]; [done |].
  cbn [errors_Is wrapped]. f_equal.
  generalize (fmt_verbs format) as verbs.
  induction args as [|[s | e] args IH]; intros [|v verbs];
    cbn [wrapped_operands existsb]; try done.
  destruct (Ascii.eqb v "w"); cbn [existsb]; by rewrite IH.
Qed.

(** An error that wraps [ErrMetricNameParsing] and nothing else: it is in
    the chain, it is what [errors.Unwrap] gives, and no other error made by
    [errors.New] is in the chain, whatever its text. *)
Lemma wraps_ErrMetricNameParsing (e : error) :
  wrapped e = [ErrMetricNameParsing : error] ->
  errors_Is e ErrMetricNameParsing = true
  /\ Unwrap e = Some (ErrMetricNameParsing : error)
  /\ (forall target : errorString,
        es_ptr target <> es_ptr ErrMetricNameParsing ->
        errors_Is e target = false).
Proof.
  intros Hw. split_and!.
  - rewrite errors_Is_wrapped, Hw. cbn. apply orb_true_r.
  - unfold Unwrap. by rewrite Hw.
  - intros target Hne. rewrite errors_Is_wrapped, Hw.
    destruct e as [s | format args]; [done |].
    cbn [same_error existsb errors_Is orb].
    rewrite !orb_false_r. apply N.eqb_neq. by intros E; apply Hne.
Qed.

Lemma wrapped_parse_errors (name : string) :
  wrapped (errUnmatched name) = [ErrMetricNameParsing : error]
  /\ wrapped (errReversed name) = [ErrMetricNameParsing : error]
  /\ wrapped (errNoClosingLast name) = [ErrMetricNameParsing : error]
  /\ wrapped (errMalformedTag name) = [ErrMetricNameParsing : error].
Proof. done. Qed.

(** ** Claims about ParseMetricName *)

(** C7. A name with neither brace is returned unchanged with no tags and
    no error.  A name [base{c1,...,cn}], where [base] has no opening brace
    and each [ci] has no comma and has text after its first colon, gives
    [base], the clauses each trimmed of surrounding white space, in their
    order, and no error. *)
Theorem ParseMetricName_success :
  (forall name : string,
     byte_in "{" name = false -> byte_in "}" name = false ->
     ParseMetricName name = (name, [], None))
  /\ (forall (base : string) (clauses : list string),
        byte_in "{" base = false ->
        clauses <> [] ->
        forallb (no_byte ",") clauses = true ->
        forallb tag_ok clauses = true ->
        ParseMetricName (base +:+ "{" +:+ Join clauses "," +:+ "}")
        = (base, map TrimSpace clauses, None)).
Proof.
  split.
  - intros name Ho Hc. rewrite ParseMetricName_cases.
    apply index_byte_None in Ho. apply last_index_byte_None in Hc.
    by rewrite Ho, Hc.
  - intros base clauses Hbase Hne Hcomma Hok.
    rewrite ParseMetricName_braced by done.
    rewrite Split_Join by done.
    by rewrite check_tags_all_ok.
Qed.

Lemma ParseMetricName_success_witness :
  ParseMetricName "http_req_duration" = ("http_req_duration", [], None)
  /\ ParseMetricName "req{status:200, method:GET }"
     = ("req", ["status:200"; "method:GET"], None).
Proof.
  split.
  - apply (proj1 ParseMetricName_success "http_req_duration"); reflexivity.
  - apply (proj2 ParseMetricName_success "req"
             ["status:200"; " method:GET "]);
      [reflexivity | discriminate | reflexivity | reflexivity].
Defined.

(** C8. ParseMetricName fails when exactly one of the two braces occurs,
    when the last closing brace comes before the first opening one, and
    when the last closing brace is not the last byte; and whenever it
    fails, the name and tags are empty and the error has
    ErrMetricNameParsing in its chain: the error wraps that very value
    (errors.Unwrap gives it), and no other error made by errors.New is in
    the chain, not even one with the same text. *)
Theorem ParseMetricName_brace_errors (name : string) :
  (xorb (byte_in "{" name) (byte_in "}" name) = true ->
   ParseMetricName name = (EmptyString, [], Some (errUnmatched name)))
  /\ (forall a b : string,
        name = a +:+ "}" +:+ b ->
        byte_in "}" b = false -> byte_in "{" a = false ->
        byte_in "{" b = true ->
        ParseMetricName name = (EmptyString, [], Some (errReversed name)))
  /\ (forall a b : string,
        name = a +:+ "}" +:+ b ->
        byte_in "}" b = false -> b <> EmptyString ->
        exists e, ParseMetricName name = (EmptyString, [], Some e))
  /\ (forall e : error,
        snd (ParseMetricName name) = Some e ->
        errors_Is e ErrMetricNameParsing = true
        /\ Unwrap e = Some (ErrMetricNameParsing : error)
        /\ (forall target : errorString,
              es_ptr target <> es_ptr ErrMetricNameParsing ->
              errors_Is e target = false)
        /\ fst (ParseMetricName name) = (EmptyString, [])).
Proof.
  split_and!.
  - intros Hx. rewrite ParseMetricName_cases.
    destruct (index_byte name "{") as [i|] eqn:Ei,
             (last_index_byte name "}") as [j|] eqn:Ej; try done.
    + destruct (byte_in "{" name) eqn:Ho.
      * destruct (byte_in "}" name) eqn:Hc; [done |].
        apply last_index_byte_None in Hc. congruence.
      * apply index_byte_None in Ho. congruence.
    + apply index_byte_None in Ei. apply last_index_byte_None in Ej.
      rewrite Ei, Ej in Hx. done.
  - intros a b -> Hcb Hoa Hob. rewrite ParseMetricName_cases.
    simpl String.append. rewrite last_index_byte_app by done.
    destruct (index_byte b "{") as [j|] eqn:Ej.
    2: { apply index_byte_None in Ej. congruence. }
    apply index_byte_Some in Ej as (b1 & b2 & -> & Hb1 & <-).
    change (String "}" (b1 +:+ String "{" b2))
      with ("}" +:+ (b1 +:+ String "{" b2)).
    rewrite <- !app_assoc_s.
    rewrite index_byte_app.
    2: { rewrite !byte_in_app, Hoa, Hb1. done. }
    rewrite !length_app_s. cbn [String.length].
    replace (_ <? _)%nat with true; [done |].
    symmetry. apply Nat.ltb_lt. lia.
  - intros a b -> Hcb Hne. rewrite ParseMetricName_cases.
    simpl String.append. rewrite last_index_byte_app by done.
    destruct (index_byte _ "{") as [i|]; [| by eexists].
    destruct (_ <? _)%nat; [by eexists |].
    rewrite length_app_s. cbn [String.length].
    replace (S (String.length a) =? _)%nat with false; [by eexists |].
    symmetry. apply Nat.eqb_neq. destruct b; [done |].
    cbn [String.length]. lia.
  - intros e He.
    pose proof (wrapped_parse_errors name) as (W1 & W2 & W3 & _).
    enough (wrapped e = [ErrMetricNameParsing : error]
            /\ fst (ParseMetricName name) = (EmptyString, []))
      as [Hw Hfst].
    { destruct (wraps_ErrMetricNameParsing e Hw) as (HIs & HUn & Hother).
      exact (conj HIs (conj HUn (conj Hother Hfst))). }
    revert He. rewrite ParseMetricName_cases.
    destruct (index_byte name "{") as [i|],
             (last_index_byte name "}") as [j|]; cbn [snd fst];
      try (intros [= <-]; split; [exact W1 | reflexivity]);
      try discriminate.
    destruct (_ <? _)%nat;
      [intros [= <-]; split; [exact W2 | reflexivity] |].
    destruct (negb _);
      [intros [= <-]; split; [exact W3 | reflexivity] |].
    destruct (check_tags _) as [e'|tags] eqn:Ec; [| discriminate].
    intros [= <-]. apply check_tags_error in Ec as (t & _ & ->).
    split; [| reflexivity].
    exact (proj2 (proj2 (proj2 (wrapped_parse_errors t)))).
Qed.

Lemma ParseMetricName_brace_errors_witness :
  ParseMetricName "req{status:200"
    = (EmptyString, [], Some (errUnmatched "req{status:200"))
  /\ ParseMetricName "req}x{" = (EmptyString, [], Some (errReversed "req}x{"))
  /\ (exists e, ParseMetricName "req{a:b}x" = (EmptyString, [], Some e))
  /\ errors_Is (errMalformedTag "a") ErrMetricNameParsing = true
  /\ Unwrap (errMalformedTag "a") = Some (ErrMetricNameParsing : error)
  /\ errors_Is (errMalformedTag "a")
       (errors_New 1 "parsing metric name failed") = false.
Proof.
  split_and!.
  - apply (proj1 (ParseMetricName_brace_errors "req{status:200")).
    reflexivity.
  - apply (proj1 (proj2 (ParseMetricName_brace_errors "req}x{")) "req" "x{");
      reflexivity.
  - apply (proj1 (proj2 (proj2 (ParseMetricName_brace_errors "req{a:b}x")))
             "req{a:b" "x"); [reflexivity | reflexivity | discriminate].
  - apply (proj2 (proj2 (proj2 (ParseMetricName_brace_errors "req{a}")))
             (errMalformedTag "a") eq_refl).
  - apply (proj2 (proj2 (proj2 (ParseMetricName_brace_errors "req{a}")))
             (errMalformedTag "a") eq_refl).
  - apply (proj1 (proj2 (proj2
             (proj2 (proj2 (proj2 (ParseMetricName_brace_errors "req{a}")))
                (errMalformedTag "a") eq_refl)))
             (errors_New 1 "parsing metric name failed")).
    discriminate.
Defined.

(** C2, as the code has it.  For a name [base{c1,...,cn}] ([base] without
    opening brace, no clause with a comma), ParseMetricName fails exactly
    when some clause has no colon or has nothing after its first colon;
    the error then reports the first such clause.  Otherwise it succeeds:
    the part before the colon may be empty, and the part after it may be
    white space only. *)
Theorem ParseMetricName_malformed_tag (base : string) (clauses : list string) :
  byte_in "{" base = false ->
  clauses <> [] ->
  forallb (no_byte ",") clauses = true ->
  ParseMetricName (base +:+ "{" +:+ Join clauses "," +:+ "}") =
    match find (fun t => negb (tag_ok t)) clauses with
    | Some t => (EmptyString, [], Some (errMalformedTag t))
    | None => (base, map TrimSpace clauses, None)
    end.
Proof.
  intros Hbase Hne Hcomma.
  rewrite ParseMetricName_braced by done.
  rewrite Split_Join by done. clear Hne Hcomma.
  induction clauses as [|t l IH]; [done |].
  cbn [find]. destruct (tag_ok t) eqn:Ht; cbn [negb].
  - rewrite check_tags_cons_ok by done.
    destruct (find _ l); destruct (check_tags l); by simplify_eq.
  - by rewrite check_tags_cons_bad.
Qed.

Lemma ParseMetricName_malformed_tag_witness :
  ParseMetricName "req{a:1,b,c:}"
  = (EmptyString, [], Some (errMalformedTag "b")).
Proof.
  apply (ParseMetricName_malformed_tag "req" ["a:1"; "b"; "c:"]);
    [reflexivity | discriminate | reflexivity].
Defined.

(** C2 fails as stated: a clause with an empty key and a clause whose value
    is empty once trimmed are both accepted. *)
Lemma ParseMetricName_accepts_empty_key_and_blank_value :
  ParseMetricName "m{:v}" = ("m", [":v"], None)
  /\ ParseMetricName "m{a: }" = ("m", ["a:"], None).
Proof. split; reflexivity. Qed.

(** ** AddSubmetric, case by case *)

Lemma find_equal_loaded h ptrs subs (tags : gmap string string) :
  loaded_submetrics h ptrs = Some subs ->
  find_equal h ptrs tags =
    match find (fun sm => IsEqual (Submetric.Tags sm) tags) subs with
    | Some sm => ScanFound sm
    | None => ScanNone
    end.
Proof.
  unfold loaded_submetrics. intros H%mapM_Some.
  induction H as [|p sm ptrs subs Hp _ IH]; [done |].
  cbn [find_equal find]. rewrite Hp.
  by destruct (IsEqual (Submetric.Tags sm) tags).
Qed.

Lemma loaded_submetrics_extend h h' ptrs subs extra :
  submetrics h' = submetrics h ++ extra ->
  loaded_submetrics h ptrs = Some subs ->
  loaded_submetrics h' ptrs = Some subs.
Proof.
  unfold loaded_submetrics. intros Hext H%mapM_Some. apply mapM_Some.
  induction H as [|p sm ptrs subs Hp _ IH]; constructor; [| done].
  destruct p as [a|]; [| done]. cbn [load_submetric] in *.
  rewrite Hext. rewrite lookup_app_l; [done |]. by eapply lookup_lt_Some.
Qed.

Lemma loaded_submetrics_snoc h ptrs subs a sm :
  loaded_submetrics h ptrs = Some subs ->
  submetrics h !! a = Some sm ->
  loaded_submetrics h (ptrs ++ [Some a]) = Some (subs ++ [sm]).
Proof.
  unfold loaded_submetrics. intros H%mapM_Some Ha. apply mapM_Some.
  apply Forall2_app; [done |]. by repeat constructor.
Qed.

Section AddSubmetricCases.

Context (h : heap) (pa : nat) (pm : Metric.t) (keyValues : string).
Hypothesis Hpm : metrics h !! pa = Some pm.

Lemma AddSubmetric_empty :
  TrimSpace keyValues = EmptyString ->
  AddSubmetric (Some pa) keyValues h
  = (Return None (Some (errEmptyCriteria (Metric.Name pm))), h).
Proof. intros He. unfold AddSubmetric. by rewrite Hpm, He. Qed.

Lemma AddSubmetric_nonempty :
  TrimSpace keyValues <> EmptyString ->
  AddSubmetric (Some pa) keyValues h =
    let kv := TrimSpace keyValues in
    let tags := IntoSampleTags (raw_tags kv) in
    let name := Metric.Name pm +:+ "{" +:+ kv +:+ "}" in
    let sa := length (submetrics h) in
    let ma := length (metrics h) in
    match find_equal h (Metric.Submetrics pm) tags with
    | ScanPanic => (Panic, h)
    | ScanFound sm =>
        (Return None
           (Some (errDuplicate kv (Metric.Name pm) (Submetric.Name sm))), h)
    | ScanNone =>
        match sink_for (Metric.Type_ pm) with
        | None =>
            (Panic,
             mkHeap (metrics h)
               (submetrics h ++ [Submetric.mk name kv tags None (Some pa)]))
        | Some sink =>
            (Return (Some sa) None,
             mkHeap
               (alter (fun x => Metric.set_Submetrics x
                                  (Metric.Submetrics x ++ [Some sa]))
                  pa (metrics h)
                ++ [Metric.mk name (Metric.Type_ pm) (Metric.Contains pm)
                      None [] [] (Some sa) (Some sink) false])
               (submetrics h
                ++ [Submetric.mk name kv tags (Some ma) (Some pa)]))
        end
    end.
Proof.
  intros Hne. unfold AddSubmetric. rewrite Hpm.
  replace (len (TrimSpace keyValues) =? 0) with false.
  2: { symmetry. apply Z.eqb_neq. by rewrite len_zero. }
  cbv zeta.
  destruct (find_equal _ _ _); [done | done |].
  unfold alloc_submetric, newMetric, alloc_metric. cbn [Submetric.Name].
  destruct (sink_for (Metric.Type_ pm)) as [sink|]; [| done].
  cbn [metrics submetrics]. unfold update_metric, update_submetric.
  cbn [metrics submetrics nth Z.ltb Z.of_nat length].
  f_equal. f_equal.
  - rewrite (alter_app_r_alt _ (metrics h)) by done.
    rewrite Nat.sub_diag. cbn [alter list_alter].
    rewrite alter_app_l by (by eapply lookup_lt_Some). done.
  - rewrite (alter_app_r_alt _ (submetrics h)) by done.
    rewrite Nat.sub_diag. done.
Qed.

End AddSubmetricCases.

Lemma AddSubmetric_nil keyValues h :
  AddSubmetric None keyValues h = (Panic, h).
Proof. done. Qed.

Lemma AddSubmetric_dangling pa keyValues h :
  metrics h !! pa = None -> AddSubmetric (Some pa) keyValues h = (Panic, h).
Proof. intros H. unfold AddSubmetric. by rewrite H. Qed.

(** ** Distinct tag sets are kept *)

Lemma IsEqual_true (a b : gmap string string) : IsEqual a b = true <-> a = b.
Proof. unfold IsEqual. apply bool_decide_eq_true. Qed.

Lemma IsEqual_false (a b : gmap string string) :
  IsEqual a b = false <-> a <> b.
Proof. unfold IsEqual. apply bool_decide_eq_false. Qed.

Lemma find_equal_none_fresh h ptrs subs (tags : gmap string string) :
  loaded_submetrics h ptrs = Some subs ->
  find_equal h ptrs tags = ScanNone ->
  tags ∉ Submetric.Tags <$> subs.
Proof.
  intros Hl. rewrite (find_equal_loaded _ _ _ _ Hl).
  destruct (find _ subs) as [sm|] eqn:Ef; [done |]. intros _.
  intros (sm & -> & Hin)%list_elem_of_fmap.
  apply list_elem_of_In in Hin.
  pose proof (find_none _ _ Ef sm Hin) as Hf. cbv beta in Hf.
  by apply IsEqual_false in Hf.
Qed.

Lemma distinct_tags_extend h h' extra :
  metrics h' = metrics h ->
  submetrics h' = submetrics h ++ extra ->
  distinct_tags h -> distinct_tags h'.
Proof.
  intros Hm Hs Hd a pm Ha. rewrite Hm in Ha.
  destruct (Hd a pm Ha) as (subs & Hl & Hnd).
  exists subs. split; [| done]. by eapply loaded_submetrics_extend.
Qed.

Lemma newMetric_distinct_tags name mt vt h :
  distinct_tags h -> distinct_tags (snd (newMetric name mt vt h)).
Proof.
  intros Hd. unfold newMetric. destruct (sink_for mt) as [sink|]; [| done].
  cbn [alloc_metric snd]. intros a pm Ha. cbn [metrics submetrics] in *.
  apply lookup_app_Some in Ha as [Ha | [_ Ha]].
  - destruct (Hd a pm Ha) as (subs & Hl & Hnd). by exists subs.
  - destruct (a - length (metrics h))%nat; [| done].
    injection Ha as <-. exists []. split; [done | constructor].
Qed.

Lemma AddSubmetric_distinct_tags m keyValues h :
  distinct_tags h -> distinct_tags (snd (AddSubmetric m keyValues h)).
Proof.
  intros Hd. destruct m as [pa|]; [| done].
  destruct (metrics h !! pa) as [pm|] eqn:Hpm.
  2: { by rewrite AddSubmetric_dangling. }
  destruct (decide (TrimSpace keyValues = EmptyString)) as [He|Hne].
  { by rewrite (AddSubmetric_empty _ _ _ _ Hpm He). }
  rewrite (AddSubmetric_nonempty _ _ _ _ Hpm Hne). cbv zeta.
  destruct (find_equal _ _ _) eqn:Hscan; [done | done |].
  destruct (sink_for _) as [sink|]; cbn [snd].
  2: { eapply distinct_tags_extend; [| | exact Hd]; reflexivity. }
  destruct (Hd pa pm Hpm) as (subs & Hl & Hnd).
  pose proof (find_equal_none_fresh _ _ _ _ Hl Hscan) as Hfresh.
  intros a pm' Ha. cbn [metrics submetrics] in *.
  apply lookup_app_Some in Ha as [Ha | [_ Ha]].
  - destruct (decide (a = pa)) as [-> | Hap].
    + rewrite list_lookup_alter_eq, Hpm in Ha. injection Ha as <-.
      cbn [Metric.set_Submetrics Metric.Submetrics].
      eexists. split.
      * apply loaded_submetrics_snoc.
        -- eapply loaded_submetrics_extend; [| exact Hl]. done.
        -- cbn [submetrics]. apply list_lookup_middle. done.
      * rewrite fmap_app. apply NoDup_app. split_and!; [done | |].
        -- intros x Hx ->%list_elem_of_singleton. done.
        -- apply NoDup_singleton.
    + rewrite list_lookup_alter_ne in Ha by done.
      destruct (Hd a pm' Ha) as (subs' & Hl' & Hnd').
      exists subs'. split; [| done].
      eapply loaded_submetrics_extend; [| exact Hl']. done.
  - rewrite length_alter in Ha.
    destruct (a - length (metrics h))%nat; [| done].
    injection Ha as <-. exists []. split; [done | constructor].
Qed.

Lemma reachable_distinct_tags h : reachable h -> distinct_tags h.
Proof.
  induction 1 as [| h name mt vt _ IH | h m keyValues _ IH].
  - intros a pm Ha. done.
  - by apply newMetric_distinct_tags.
  - by apply AddSubmetric_distinct_tags.
Qed.

Lemma alter_lookup_insert {A} (f : A -> A) (l : list A) (i : nat) (x : A) :
  l !! i = Some x -> alter f i l = <[i := f x]> l.
Proof.
  revert i. induction l as [|y l IH]; intros [|i] H; try done.
  - by injection H as ->.
  - cbn. f_equal. by apply IH.
Qed.

(** ** Claims about AddSubmetric *)

(** C9. A clause that is empty once trimmed makes AddSubmetric fail with
    the empty-criteria error, which carries the parent's name; the store is
    left as it was, so no submetric is created. *)
Theorem AddSubmetric_empty_criteria
  (h : heap) (pa : nat) (pm : Metric.t) (keyValues : string) :
  metrics h !! pa = Some pm ->
  TrimSpace keyValues = EmptyString ->
  AddSubmetric (Some pa) keyValues h
  = (Return None (Some (errEmptyCriteria (Metric.Name pm))), h)
  /\ errEmptyCriteria (Metric.Name pm)
     = fmt_Errorf "submetric criteria for metric '%s' cannot be empty"
         [arg_string (Metric.Name pm)].
Proof.
  intros Hpm He. split; [| done]. by apply AddSubmetric_empty.
Qed.

Lemma AddSubmetric_empty_criteria_witness :
  AddSubmetric (Some 0%nat) "  " example_store
  = (Return None (Some (errEmptyCriteria "req")), example_store).
Proof.
  refine (proj1 (AddSubmetric_empty_criteria example_store 0
                   (Metric.mk "req" Trend Time None [] [] None
                      (Some TrendSink) false) "  " _ _));
    reflexivity.
Defined.

(** C3. Whenever AddSubmetric returns an error, the store is exactly the
    one before the call (no submetric or metric was added and the parent's
    list is unchanged), no submetric is returned, and the error is the
    empty-criteria error or the duplicate error. *)
Theorem AddSubmetric_error_atomic
  (m : ptr) (keyValues : string) (h h' : heap) (sp : ptr) (e : error) :
  AddSubmetric m keyValues h = (Return sp (Some e), h') ->
  h' = h /\ sp = None
  /\ exists pa pm,
       m = Some pa /\ metrics h !! pa = Some pm
       /\ (TrimSpace keyValues = EmptyString
           /\ e = errEmptyCriteria (Metric.Name pm)
           \/ TrimSpace keyValues <> EmptyString
              /\ exists sm,
                   find_equal h (Metric.Submetrics pm)
                     (IntoSampleTags (raw_tags (TrimSpace keyValues)))
                   = ScanFound sm
                   /\ e = errDuplicate (TrimSpace keyValues) (Metric.Name pm)
                            (Submetric.Name sm)).
Proof.
  destruct m as [pa|]; [| done].
  destruct (metrics h !! pa) as [pm|] eqn:Hpm.
  2: { by rewrite AddSubmetric_dangling. }
  destruct (decide (TrimSpace keyValues = EmptyString)) as [He|Hne].
  - rewrite (AddSubmetric_empty _ _ _ _ Hpm He). intros [= <- <- <-].
    split_and!; [done.. |]. exists pa, pm. split_and!; [done.. |]. by left.
  - rewrite (AddSubmetric_nonempty _ _ _ _ Hpm Hne). cbv zeta.
    destruct (find_equal _ _ _) as [|sm|] eqn:Hscan; [done | |].
    + intros [= <- <- <-]. split_and!; [done.. |].
      exists pa, pm. split_and!; [done.. |]. right. split; [done |].
      by exists sm.
    + by destruct (sink_for _).
Qed.

Lemma AddSubmetric_error_atomic_witness :
  AddSubmetric (Some 0%nat) " status:200 " example_store_1
  = (Return None
       (Some (errDuplicate "status:200" "req" "req{status:200}")),
     example_store_1)
  /\ example_store_1 = example_store_1.
Proof.
  split; [vm_compute; reflexivity |].
  apply (AddSubmetric_error_atomic (Some 0%nat) " status:200 "
           example_store_1 example_store_1 None
           (errDuplicate "status:200" "req" "req{status:200}")).
  vm_compute. reflexivity.
Defined.

(** C6. After a successful call on the parent [pm] at address [pa]: the
    parent's kind is a supported one; the new submetric is the last object
    of the store and points to its parent and to the backing metric; the
    backing metric is the last metric of the store, made with the
    submetric's name, the parent's kind and value type and the sink of
    that kind, and points back to the submetric; and the parent's
    Submetrics is the old sequence with the new submetric at its end,
    nothing else in the store being changed: the metric now stored at
    [pa] has that Submetrics and the parent's other fields, and every
    other metric that was in the store is as it was. *)
Theorem AddSubmetric_success_links
  (h h' : heap) (pa : nat) (pm : Metric.t) (keyValues : string) (sp : ptr) :
  metrics h !! pa = Some pm ->
  AddSubmetric (Some pa) keyValues h = (Return sp None, h') ->
  let sa := length (submetrics h) in
  let ma := length (metrics h) in
  exists (sub : Submetric.t) (bm : Metric.t) (sink : Sink),
    sp = Some sa
    /\ sink_for (Metric.Type_ pm) = Some sink
    /\ submetrics h' = submetrics h ++ [sub]
    /\ metrics h'
       = <[pa := Metric.set_Submetrics pm (Metric.Submetrics pm ++ [Some sa])]>
           (metrics h) ++ [bm]
    /\ Submetric.Metric sub = Some ma
    /\ Submetric.Parent sub = Some pa
    /\ Metric.Name bm = Submetric.Name sub
    /\ Metric.Type_ bm = Metric.Type_ pm
    /\ Metric.Contains bm = Metric.Contains pm
    /\ Metric.Sink bm = Some sink
    /\ Metric.Sub bm = Some sa
    /\ Metric.Submetrics bm = []
    /\ submetrics h' !! sa = Some sub
    /\ metrics h' !! ma = Some bm
    /\ metrics h' !! pa
       = Some (Metric.set_Submetrics pm (Metric.Submetrics pm ++ [Some sa]))
    /\ (exists pm' : Metric.t,
          metrics h' !! pa = Some pm'
          /\ Metric.Submetrics pm' = Metric.Submetrics pm ++ [Some sa]
          /\ Metric.Name pm' = Metric.Name pm
          /\ Metric.Type_ pm' = Metric.Type_ pm
          /\ Metric.Contains pm' = Metric.Contains pm
          /\ Metric.Tainted pm' = Metric.Tainted pm
          /\ Metric.Thresholds pm' = Metric.Thresholds pm
          /\ Metric.Sub pm' = Metric.Sub pm
          /\ Metric.Sink pm' = Metric.Sink pm
          /\ Metric.Observed pm' = Metric.Observed pm)
    /\ length (metrics h') = S ma
    /\ (forall a : nat,
          a <> pa -> (a < ma)%nat -> metrics h' !! a = metrics h !! a).
Proof.
  intros Hpm Hcall sa ma.
  destruct (decide (TrimSpace keyValues = EmptyString)) as [He|Hne].
  { by rewrite (AddSubmetric_empty _ _ _ _ Hpm He) in Hcall. }
  rewrite (AddSubmetric_nonempty _ _ _ _ Hpm Hne) in Hcall. cbv zeta in Hcall.
  destruct (find_equal _ _ _); [done | done |].
  destruct (sink_for _) as [sink|] eqn:Hsink; [| done].
  injection Hcall as <- <-.
  rewrite (alter_lookup_insert _ _ _ _ Hpm).
  pose proof (lookup_lt_Some _ _ _ Hpm) as Hlt.
  eexists _, _, sink. cbn [metrics submetrics].
  split_and!; try reflexivity.
  - by apply list_lookup_middle.
  - apply list_lookup_middle. by rewrite length_insert.
  - rewrite lookup_app_l by (by rewrite length_insert).
    by apply list_lookup_insert_eq.
  - eexists. split.
    + rewrite lookup_app_l by (by rewrite length_insert).
      by apply list_lookup_insert_eq.
    + by destruct pm.
  - rewrite length_app, length_insert. cbn [length]. unfold ma. lia.
  - intros a Hapa Ha.
    rewrite lookup_app_l by (by rewrite length_insert).
    by apply list_lookup_insert_ne.
Qed.

Lemma AddSubmetric_success_links_witness :
  AddSubmetric (Some 0%nat) "status:200" example_store
  = (Return (Some 0%nat) None, example_store_1)
  /\ (exists sub bm,
        submetrics example_store_1 !! 0%nat = Some sub
        /\ metrics example_store_1 !! 1%nat = Some bm
        /\ Submetric.Metric sub = Some 1%nat
        /\ Metric.Sub bm = Some 0%nat
        /\ Metric.Type_ bm = Trend /\ Metric.Contains bm = Time)
  /\ (exists pm',
        metrics example_store_1 !! 0%nat = Some pm'
        /\ Metric.Submetrics pm' = [Some 0%nat]
        /\ Metric.Name pm' = "req").
Proof.
  split; [vm_compute; reflexivity |].
  destruct (AddSubmetric_success_links example_store example_store_1 0
              (Metric.mk "req" Trend Time None [] [] None (Some TrendSink)
                 false)
              "status:200" (Some 0%nat))
    as (sub & bm & sink & _ & _ & _ & _ & H1 & _ & _ & H2 & H3 & _ & H4 & _
        & H5 & H6 & _ & (pm' & H7 & H8 & H9 & _) & _);
    [reflexivity | vm_compute; reflexivity |].
  split.
  - exists sub, bm.
    exact (conj H5 (conj H6 (conj H1 (conj H4 (conj H2 H3))))).
  - exists pm'. exact (conj H7 (conj H8 H9)).
Defined.

(** C5, as the code has it.  The submetric a successful call returns has
    as Suffix the clause after it was trimmed of surrounding white space,
    and as Name the parent's name followed by that trimmed clause in
    braces. *)
Theorem AddSubmetric_suffix_trimmed
  (h h' : heap) (pa : nat) (pm : Metric.t) (keyValues : string) (sp : ptr) :
  metrics h !! pa = Some pm ->
  AddSubmetric (Some pa) keyValues h = (Return sp None, h') ->
  exists sub,
    load_submetric h' sp = Some sub
    /\ Submetric.Suffix sub = TrimSpace keyValues
    /\ Submetric.Name sub
       = Metric.Name pm +:+ "{" +:+ TrimSpace keyValues +:+ "}"
    /\ Submetric.Tags sub = IntoSampleTags (raw_tags (TrimSpace keyValues)).
Proof.
  intros Hpm Hcall.
  destruct (decide (TrimSpace keyValues = EmptyString)) as [He|Hne].
  { by rewrite (AddSubmetric_empty _ _ _ _ Hpm He) in Hcall. }
  rewrite (AddSubmetric_nonempty _ _ _ _ Hpm Hne) in Hcall. cbv zeta in Hcall.
  destruct (find_equal _ _ _); [done | done |].
  destruct (sink_for _) as [sink|]; [| done].
  injection Hcall as <- <-. cbn [load_submetric submetrics].
  eexists. split; [by apply list_lookup_middle |]. done.
Qed.

Lemma AddSubmetric_suffix_trimmed_witness :
  AddSubmetric (Some 0%nat) " status:200 " example_store
  = (Return (Some 0%nat) None, example_store_1)
  /\ exists sub,
       load_submetric example_store_1 (Some 0%nat) = Some sub
       /\ Submetric.Suffix sub = "status:200"
       /\ Submetric.Name sub = "req{status:200}".
Proof.
  split; [vm_compute; reflexivity |].
  destruct (AddSubmetric_suffix_trimmed example_store example_store_1 0
              (Metric.mk "req" Trend Time None [] [] None (Some TrendSink)
                 false)
              " status:200 " (Some 0%nat))
    as (sub & H1 & H2 & H3 & _);
    [reflexivity | vm_compute; reflexivity |].
  exists sub. split_and!; [exact H1 | exact H2 | exact H3].
Defined.

(** C5 fails as stated: for the clause [ status:200 ], given with a space
    at each end, the call succeeds and the Suffix is not the text supplied,
    nor is the Name built from it. *)
Lemma AddSubmetric_suffix_not_raw :
  exists h' sub,
    AddSubmetric (Some 0%nat) " status:200 " example_store
    = (Return (Some 0%nat) None, h')
    /\ load_submetric h' (Some 0%nat) = Some sub
    /\ Submetric.Suffix sub = "status:200"
    /\ Submetric.Suffix sub <> " status:200 "
    /\ Submetric.Name sub = "req{status:200}"
    /\ Submetric.Name sub <> "req{ status:200 }".
Proof.
  eexists _, _. split_and!; [vm_compute; reflexivity | reflexivity | ..];
    done.
Qed.

(** ** Duplicates *)

Lemma find_equal_found h ptrs subs (tags : gmap string string) sm :
  loaded_submetrics h ptrs = Some subs ->
  sm ∈ subs ->
  IsEqual (Submetric.Tags sm) tags = true ->
  exists sm', find_equal h ptrs tags = ScanFound sm'
              /\ sm' ∈ subs /\ IsEqual (Submetric.Tags sm') tags = true.
Proof.
  intros Hl Hin Heq. rewrite (find_equal_loaded _ _ _ _ Hl).
  destruct (find _ subs) as [sm'|] eqn:Ef.
  - apply find_some in Ef as [Hin' Heq']. exists sm'.
    split_and!; [done | by apply list_elem_of_In | done].
  - apply list_elem_of_In in Hin.
    pose proof (find_none _ _ Ef sm Hin) as Hf. cbv beta in Hf. congruence.
Qed.

Lemma find_equal_snoc h h' ptrs sm (tags : gmap string string) :
  find_equal h ptrs tags = ScanNone ->
  submetrics h' = submetrics h ++ [sm] ->
  Submetric.Tags sm = tags ->
  find_equal h' (ptrs ++ [Some (length (submetrics h))]) tags = ScanFound sm.
Proof.
  intros Hscan Hext Htags. induction ptrs as [|p ptrs IH].
  - cbn [app find_equal load_submetric]. rewrite Hext, list_lookup_middle by done.
    replace (IsEqual _ _) with true; [done |].
    symmetry. by apply IsEqual_true.
  - cbn [find_equal] in Hscan. rewrite <- app_comm_cons. cbn [find_equal].
    destruct (load_submetric h p) as [x|] eqn:Hp; [| done].
    assert (load_submetric h' p = Some x) as ->.
    { destruct p as [a|]; [| done]. cbn [load_submetric] in *.
      rewrite Hext, lookup_app_l; [done |]. by eapply lookup_lt_Some. }
    destruct (IsEqual (Submetric.Tags x) tags); [done |]. by apply IH.
Qed.

Lemma AddSubmetric_twice h h1 pa pm kv1 kv2 r1 :
  metrics h !! pa = Some pm ->
  TrimSpace kv1 <> EmptyString -> TrimSpace kv2 <> EmptyString ->
  raw_tags (TrimSpace kv1) = raw_tags (TrimSpace kv2) ->
  AddSubmetric (Some pa) kv1 h = (r1, h1) -> r1 <> Panic ->
  exists sm,
    AddSubmetric (Some pa) kv2 h1
    = (Return None
         (Some (errDuplicate (TrimSpace kv2) (Metric.Name pm)
                  (Submetric.Name sm))), h1).
Proof.
  intros Hpm Hne1 Hne2 Htags Hcall Hnp.
  rewrite (AddSubmetric_nonempty _ _ _ _ Hpm Hne1) in Hcall.
  cbv zeta in Hcall.
  destruct (find_equal _ _ _) as [|sm|] eqn:Hscan.
  - injection Hcall as <- <-. done.
  - injection Hcall as <- <-. exists sm.
    rewrite (AddSubmetric_nonempty _ _ _ _ Hpm Hne2). cbv zeta.
    by rewrite <- Htags, Hscan.
  - destruct (sink_for _) as [sink|]; [| injection Hcall as <- <-; done].
    injection Hcall as <- <-.
    pose proof (lookup_lt_Some _ _ _ Hpm) as Hlt.
    eexists.
    erewrite AddSubmetric_nonempty; [| | done].
    2: { cbn [metrics]. rewrite lookup_app_l by (by rewrite length_alter).
         by rewrite list_lookup_alter_eq, Hpm. }
    cbv zeta. cbn [Metric.set_Submetrics Metric.Submetrics Metric.Name].
    erewrite find_equal_snoc; [reflexivity | by rewrite <- Htags | done | done].
Qed.

(** C1. (i) When the tag set built from the trimmed, non-empty clause is
    equal to the tag set of one of the parent's submetrics, AddSubmetric
    fails with the duplicate error, naming a submetric with equal tags,
    and leaves the store as it was.  (ii) In every store that calls of
    newMetric and AddSubmetric lead to, no metric has two submetrics with
    equal tag sets.  (iii) After a call with [status:200,method:GET] that
    did not panic, a call with [method:GET,status:200] on the same parent
    fails as a duplicate. *)
Theorem AddSubmetric_no_duplicate_tags :
  (forall (h : heap) (pa : nat) (pm : Metric.t) (subs : list Submetric.t)
          (keyValues : string) (sm : Submetric.t),
     metrics h !! pa = Some pm ->
     loaded_submetrics h (Metric.Submetrics pm) = Some subs ->
     TrimSpace keyValues <> EmptyString ->
     sm ∈ subs ->
     IsEqual (Submetric.Tags sm)
       (IntoSampleTags (raw_tags (TrimSpace keyValues))) = true ->
     exists sm',
       sm' ∈ subs
       /\ IsEqual (Submetric.Tags sm')
            (IntoSampleTags (raw_tags (TrimSpace keyValues))) = true
       /\ AddSubmetric (Some pa) keyValues h
          = (Return None
               (Some (errDuplicate (TrimSpace keyValues) (Metric.Name pm)
                        (Submetric.Name sm'))), h))
  /\ (forall h : heap, reachable h -> distinct_tags h)
  /\ (forall (h h1 : heap) (pa : nat) (pm : Metric.t) (r1 : result),
        metrics h !! pa = Some pm ->
        AddSubmetric (Some pa) "status:200,method:GET" h = (r1, h1) ->
        r1 <> Panic ->
        exists sm,
          AddSubmetric (Some pa) "method:GET,status:200" h1
          = (Return None
               (Some (errDuplicate "method:GET,status:200" (Metric.Name pm)
                        (Submetric.Name sm))), h1)).
Proof.
  split_and!.
  - intros h pa pm subs keyValues sm Hpm Hl Hne Hin Heq.
    destruct (find_equal_found _ _ _ _ _ Hl Hin Heq)
      as (sm' & Hscan & Hin' & Heq').
    exists sm'. split_and!; [done.. |].
    rewrite (AddSubmetric_nonempty _ _ _ _ Hpm Hne). cbv zeta.
    by rewrite Hscan.
  - apply reachable_distinct_tags.
  - intros h h1 pa pm r1 Hpm Hcall Hnp.
    apply (AddSubmetric_twice h h1 pa pm "status:200,method:GET"
             "method:GET,status:200" r1); done.
Qed.

Lemma AddSubmetric_no_duplicate_tags_witness :
  let h1 := snd (AddSubmetric (Some 0%nat) "status:200,method:GET"
                   example_store) in
  fst (AddSubmetric (Some 0%nat) "status:200,method:GET" example_store)
  = Return (Some 0%nat) None
  /\ (exists sm,
        AddSubmetric (Some 0%nat) "method:GET,status:200" h1
        = (Return None
             (Some (errDuplicate "method:GET,status:200" "req"
                      (Submetric.Name sm))), h1))
  /\ distinct_tags h1.
Proof.
  intros h1. split_and!.
  - vm_compute. reflexivity.
  - apply (proj2 (proj2 AddSubmetric_no_duplicate_tags) example_store h1
             0%nat
             (Metric.mk "req" Trend Time None [] [] None (Some TrendSink)
                false)
             (Return (Some 0%nat) None)).
    + reflexivity.
    + vm_compute. reflexivity.
    + discriminate.
  - apply (proj1 (proj2 AddSubmetric_no_duplicate_tags)).
    apply reachable_AddSubmetric.
    apply (reachable_newMetric (mkHeap [] []) "req" Trend [Time]).
    apply reachable_empty.
Defined.

(** ** Clauses made of commas *)

Lemma only_commas_Split s :
  only_commas s = true -> Forall (fun x => x = EmptyString) (Split s ",").
Proof.
  induction s as [|a s IH]; cbn [only_commas Split]; intros H.
  - by repeat constructor.
  - apply andb_true_iff in H as [Ha Hs]. rewrite Ha.
    constructor; [done | by apply IH].
Qed.

Lemma fold_add_raw_tag_empty l (rawTags : gmap string string) :
  Forall (fun x => x = EmptyString) l ->
  fold_left add_raw_tag l rawTags = rawTags.
Proof.
  intros H. revert rawTags.
  induction H as [|x l -> _ IH]; intros rawTags; [done |].
  cbn [fold_left]. by rewrite IH.
Qed.

Lemma raw_tags_only_commas s : only_commas s = true -> raw_tags s = ∅.
Proof.
  intros H. unfold raw_tags. cbv zeta.
  apply fold_add_raw_tag_empty. by apply only_commas_Split.
Qed.

Lemma find_equal_all_differ h ptrs subs (tags : gmap string string) :
  loaded_submetrics h ptrs = Some subs ->
  Forall (fun sm => Submetric.Tags sm <> tags) subs ->
  find_equal h ptrs tags = ScanNone.
Proof.
  intros Hl Hall. rewrite (find_equal_loaded _ _ _ _ Hl). clear Hl.
  induction Hall as [|sm subs' Hsm _ IH]; [done |].
  cbn [find]. apply IsEqual_false in Hsm. by rewrite Hsm.
Qed.

(** C10, as the code has it.  For a clause that, once trimmed, is one or
    more commas and nothing else: the tag mapping built is empty and the
    call never fails with the empty-criteria error.  When the parent has a
    supported kind and none of its submetrics has an empty tag set, a
    submetric with no tags is created and appended; when one of its
    submetrics already has an empty tag set, the call fails as a
    duplicate. *)
Theorem AddSubmetric_only_commas
  (h : heap) (pa : nat) (pm : Metric.t) (keyValues : string) :
  metrics h !! pa = Some pm ->
  TrimSpace keyValues <> EmptyString ->
  only_commas (TrimSpace keyValues) = true ->
  raw_tags (TrimSpace keyValues) = ∅
  /\ fst (AddSubmetric (Some pa) keyValues h)
     <> Return None (Some (errEmptyCriteria (Metric.Name pm)))
  /\ (forall (subs : list Submetric.t) (sink : Sink),
        loaded_submetrics h (Metric.Submetrics pm) = Some subs ->
        Forall (fun sm => Submetric.Tags sm <> ∅) subs ->
        sink_for (Metric.Type_ pm) = Some sink ->
        exists sub h',
          AddSubmetric (Some pa) keyValues h
          = (Return (Some (length (submetrics h))) None, h')
          /\ submetrics h' = submetrics h ++ [sub]
          /\ Submetric.Tags sub = ∅
          /\ Submetric.Suffix sub = TrimSpace keyValues
          /\ metrics h' !! pa
             = Some (Metric.set_Submetrics pm
                       (Metric.Submetrics pm
                        ++ [Some (length (submetrics h))]))
          /\ exists pm' : Metric.t,
               metrics h' !! pa = Some pm'
               /\ Metric.Submetrics pm'
                  = Metric.Submetrics pm ++ [Some (length (submetrics h))])
  /\ (forall (subs : list Submetric.t) (sm : Submetric.t),
        loaded_submetrics h (Metric.Submetrics pm) = Some subs ->
        sm ∈ subs -> Submetric.Tags sm = ∅ ->
        exists sm',
          Submetric.Tags sm' = ∅
          /\ AddSubmetric (Some pa) keyValues h
             = (Return None
                  (Some (errDuplicate (TrimSpace keyValues) (Metric.Name pm)
                           (Submetric.Name sm'))), h)).
Proof.
  intros Hpm Hne Hcommas.
  pose proof (raw_tags_only_commas _ Hcommas) as Htags.
  rewrite (AddSubmetric_nonempty _ _ _ _ Hpm Hne). cbv zeta.
  rewrite Htags. unfold IntoSampleTags.
  split_and!.
  - done.
  - destruct (find_equal _ _ _); [done | done |].
    by destruct (sink_for _).
  - intros subs sink Hl Hall Hsink.
    rewrite (find_equal_all_differ _ _ _ _ Hl Hall), Hsink.
    eexists _, _. split; [reflexivity |]. cbn [metrics submetrics].
    assert (forall bm : Metric.t,
              (alter (fun x => Metric.set_Submetrics x
                                 (Metric.Submetrics x
                                  ++ [Some (length (submetrics h))]))
                 pa (metrics h) ++ [bm]) !! pa
              = Some (Metric.set_Submetrics pm
                        (Metric.Submetrics pm
                         ++ [Some (length (submetrics h))]))) as Hpa.
    { intros bm. rewrite lookup_app_l.
      2: { rewrite length_alter. by eapply lookup_lt_Some. }
      by rewrite list_lookup_alter_eq, Hpm. }
    split_and!; [done.. | apply Hpa |].
    eexists. split; [apply Hpa | done].
  - intros subs sm Hl Hin Hsm.
    destruct (find_equal_found h _ subs ∅ sm Hl Hin) as (sm' & -> & _ & Heq).
    { by apply IsEqual_true. }
    exists sm'. split; [by apply IsEqual_true | done].
Qed.

Lemma AddSubmetric_only_commas_witness :
  exists sub h',
    AddSubmetric (Some 0%nat) " ,, " example_store
    = (Return (Some 0%nat) None, h')
    /\ submetrics h' = [sub]
    /\ Submetric.Tags sub = ∅
    /\ Submetric.Suffix sub = ",,"
    /\ exists pm',
         metrics h' !! 0%nat = Some pm'
         /\ Metric.Submetrics pm' = [Some 0%nat].
Proof.
  destruct (proj1 (proj2 (proj2
              (AddSubmetric_only_commas example_store 0
                 (Metric.mk "req" Trend Time None [] [] None (Some TrendSink)
                    false)
                 " ,, " eq_refl ltac:(discriminate) eq_refl)))
              [] TrendSink eq_refl ltac:(constructor) eq_refl)
    as (sub & h' & H1 & H2 & H3 & H4 & _ & pm' & H5 & H6).
  exists sub, h'.
  split_and!; [exact H1 | exact H2 | exact H3 | exact H4 |].
  exists pm'. exact (conj H5 H6).
Defined.

(** C10 fails as stated: once the parent has the submetric of the clause
    [,], the clause [,,] is refused as a duplicate and nothing is
    appended. *)
Lemma AddSubmetric_commas_refused :
  let h1 := snd (AddSubmetric (Some 0%nat) "," example_store) in
  fst (AddSubmetric (Some 0%nat) "," example_store) = Return (Some 0%nat) None
  /\ AddSubmetric (Some 0%nat) ",," h1
     = (Return None (Some (errDuplicate ",," "req" "req{,}")), h1).
Proof. split; vm_compute; reflexivity. Qed.

(** ** Quote stripping *)

Lemma trim_left_bytes_spec (s cs : string) :
  exists l,
    s = l +:+ trim_left_bytes s cs
    /\ all_in cs l = true
    /\ forall c, first_byte (trim_left_bytes s cs) = Some c ->
                 byte_in c cs = false.
Proof.
  induction s as [|a s (l & Hs & Hl & Hf)]; cbn [trim_left_bytes].
  - by exists EmptyString.
  - destruct (byte_in a cs) eqn:Ha.
    + exists (String a l). cbn [all_in]. rewrite Ha, Hl.
      split_and!; [| done | done]. simpl. by rewrite <- Hs.
    + exists EmptyString. split_and!; [done | done |].
      by intros c [= <-].
Qed.

Lemma trim_right_bytes_spec (s cs : string) :
  exists t,
    s = trim_right_bytes s cs +:+ t
    /\ all_in cs t = true
    /\ forall c, last_byte (trim_right_bytes s cs) = Some c ->
                 byte_in c cs = false.
Proof.
  induction s as [|a s (t & Hs & Ht & Hlast)]; cbn [trim_right_bytes].
  - by exists EmptyString.
  - destruct (trim_right_bytes s cs) as [|b r] eqn:Er.
    + destruct (byte_in a cs) eqn:Ha.
      * exists (String a t). cbn [all_in]. rewrite Ha, Ht.
        split_and!; [| done | done]. simpl in *. by rewrite <- Hs.
      * exists t. split_and!; [| done |].
        -- simpl in *. by rewrite <- Hs.
        -- by intros c [= <-].
    + exists t. split_and!; [| done | done]. simpl in *. by rewrite <- Hs.
Qed.

Lemma last_byte_app (l r : string) :
  r <> EmptyString -> last_byte (l +:+ r) = last_byte r.
Proof.
  intros Hr. induction l as [|a l IH]; [done |].
  simpl. rewrite IH. destruct (l +:+ r) eqn:E; [| done].
  destruct l, r; done.
Qed.

Lemma Trim_spec (s cs : string) :
  exists l t,
    s = l +:+ Trim s cs +:+ t
    /\ all_in cs l = true /\ all_in cs t = true
    /\ (forall c, first_byte (Trim s cs) = Some c -> byte_in c cs = false)
    /\ (forall c, last_byte (Trim s cs) = Some c -> byte_in c cs = false).
Proof.
  unfold Trim.
  destruct (trim_right_bytes_spec s cs) as (t & Hs & Ht & Hlast).
  destruct (trim_left_bytes_spec (trim_right_bytes s cs) cs)
    as (l & Hr & Hl & Hfirst).
  exists l, t. split_and!; [| done | done | done |].
  - rewrite <- app_assoc_s, <- Hr. done.
  - intros c Hc. apply Hlast. rewrite Hr.
    rewrite last_byte_app; [done |]. by intros E; rewrite E in Hc.
Qed.

(** C4, as the code has it.  A piece [k:v] of the clause ([k] without
    colon) sets the key [k], trimmed and quote-stripped, to [v], trimmed
    and quote-stripped, and a non-empty piece without colon sets its key to
    the empty value.  Quote-stripping removes every leading and every
    trailing single or double quote, however many and whether or not they
    match: what is removed at each end is made of quotes only, and what is
    left neither begins nor ends with a quote. *)
Theorem add_raw_tag_strips_all_quotes :
  (forall (rawTags : gmap string string) (k v : string),
     byte_in ":" k = false ->
     add_raw_tag rawTags (k +:+ ":" +:+ v)
     = <[Trim (TrimSpace k) quotes := Trim (TrimSpace v) quotes]> rawTags)
  /\ (forall (rawTags : gmap string string) (k : string),
        byte_in ":" k = false -> k <> EmptyString ->
        add_raw_tag rawTags k
        = <[Trim (TrimSpace k) quotes := EmptyString]> rawTags)
  /\ (forall s : string,
        exists l t,
          s = l +:+ Trim s quotes +:+ t
          /\ all_in quotes l = true /\ all_in quotes t = true
          /\ (forall c, first_byte (Trim s quotes) = Some c ->
                        byte_in c quotes = false)
          /\ (forall c, last_byte (Trim s quotes) = Some c ->
                        byte_in c quotes = false)).
Proof.
  split_and!.
  - intros rawTags k v Hk. unfold add_raw_tag.
    replace (String.eqb (k +:+ ":" +:+ v) EmptyString) with false
      by (by destruct k).
    unfold SplitN. cbn [Z.eqb Z.ltb Z.compare].
    change (Z.to_nat 2) with 2%nat.
    simpl String.append. rewrite split_upto_2_app by done. done.
  - intros rawTags k Hk Hne. unfold add_raw_tag.
    replace (String.eqb k EmptyString) with false by (by destruct k).
    unfold SplitN. cbn [Z.eqb Z.ltb Z.compare].
    change (Z.to_nat 2) with 2%nat.
    rewrite split_upto_2_no_sep by done. done.
  - intros s. apply Trim_spec.
Qed.

Lemma add_raw_tag_strips_all_quotes_witness :
  add_raw_tag ∅ "''a'':'b'" = <["a" := "b"]> ∅
  /\ add_raw_tag ∅ (String "034" "a'") = <["a" := EmptyString]> ∅.
Proof.
  split.
  - apply (proj1 add_raw_tag_strips_all_quotes ∅ "''a''" "'b'"). reflexivity.
  - apply (proj1 (proj2 add_raw_tag_strips_all_quotes) ∅ (String "034" "a'"));
      [reflexivity | discriminate].
Defined.

(** C4 fails as stated: the key written with a double quote in front and a
    single quote behind, and the value in two layers of single quotes, are
    both stripped to the bare text, where one layer of matching quotes
    would leave the first untouched and the second in one layer. *)
Lemma quote_stripping_not_single_layer :
  raw_tags (String "034" "a':''b''") = <["a" := "b"]> ∅
  /\ spec_unquote (String "034" "a'") = String "034" "a'"
  /\ spec_unquote "''b''" = "'b'"
  /\ Trim (String "034" "a'") quotes <> spec_unquote (String "034" "a'")
  /\ Trim "''b''" quotes <> spec_unquote "''b''".
Proof. split_and!; done. Qed.

(** * Further properties *)

(** ** Split and Join *)

Lemma Split_nonempty (s : string) (sep : ascii) : Split s sep <> [].
Proof.
  induction s as [|a s IH]; cbn [Split]; [done |].
  destruct (Ascii.eqb a sep); [done |]. by destruct (Split s sep).
Qed.

Lemma Split_app_sep (a b : string) (sep : ascii) :
  Split (a +:+ String sep b) sep = Split a sep ++ Split b sep.
Proof.
  induction a as [|x a IH]; simpl.
  - by rewrite Ascii.eqb_refl.
  - rewrite IH. destruct (Ascii.eqb x sep); [done |].
    pose proof (Split_nonempty a sep). by destruct (Split a sep).
Qed.

Lemma Split_no_byte (s : string) (sep : ascii) :
  forallb (no_byte sep) (Split s sep) = true.
Proof.
  induction s as [|a s IH]; cbn [Split]; [done |].
  destruct (Ascii.eqb a sep) eqn:E; [by cbn; rewrite IH |].
  destruct (Split s sep) as [|x l]; cbn in *; unfold no_byte in *; cbn.
  - by rewrite E.
  - rewrite E. done.
Qed.

Lemma Join_cons_head (a : ascii) (l : list string) (sep : ascii) :
  l <> [] -> Join (cons_head a l) sep = String a (Join l sep).
Proof. destruct l as [|x [|y l]]; done. Qed.

Lemma Join_Split (s : string) (sep : ascii) : Join (Split s sep) sep = s.
Proof.
  induction s as [|a s IH]; cbn [Split]; [done |].
  destruct (Ascii.eqb a sep) eqn:E.
  - apply Ascii.eqb_eq in E as ->.
    pose proof (Split_nonempty s sep).
    unfold Join in *.
    destruct (Split s sep) as [|x l] eqn:Es; [done |].
    change (String.concat (String sep "") ("" :: x :: l))
      with (String sep (String.concat (String sep "") (x :: l))).
    by rewrite IH.
  - rewrite Join_cons_head by apply Split_nonempty. by rewrite IH.
Qed.

Lemma check_tags_inr (l tags : list string) :
  check_tags l = inr tags ->
  forallb tag_ok l = true /\ tags = map TrimSpace l.
Proof.
  revert tags. induction l as [|t l IH]; intros tags.
  - by intros [= <-].
  - destruct (tag_ok t) eqn:Ht.
    + rewrite check_tags_cons_ok by done.
      destruct (check_tags l) as [e|tags']; [done |]. intros [= <-].
      destruct (IH tags' eq_refl) as [Hall ->]. cbn. by rewrite Ht, Hall.
    + by rewrite check_tags_cons_bad.
Qed.

Lemma app_snoc_inj (x y : string) (c d : ascii) :
  x +:+ String c EmptyString = y +:+ String d EmptyString -> x = y /\ c = d.
Proof.
  revert y. induction x as [|a x IH]; intros [|b y] H; simpl in H.
  - by injection H as ->.
  - injection H as -> H. by destruct y.
  - injection H as -> H. by destruct x.
  - injection H as -> H. destruct (IH _ H) as [-> ->]. done.
Qed.

Lemma string_snoc (s : string) :
  s <> EmptyString -> exists s' c, s = s' +:+ String c EmptyString.
Proof.
  induction s as [|a s IH]; [done |]. intros _.
  destruct s as [|b s].
  - by exists EmptyString, a.
  - destruct IH as (s' & c & ->); [done |]. by exists (String a s'), c.
Qed.

(** The shape of a name that passes the three brace checks. *)
Lemma braced_shape (name : string) (i j : nat) :
  index_byte name "{" = Some i ->
  last_index_byte name "}" = Some j ->
  (j <? i)%nat = false ->
  S j = String.length name ->
  exists base body,
    name = base +:+ "{" +:+ body +:+ "}" /\ byte_in "{" base = false.
Proof.
  intros Hi Hj Hlt Hlen.
  pose proof (ParseMetricName_slice_bounds _ _ _ Hi Hj Hlt) as [Hij _].
  apply index_byte_Some in Hi as (a & b & Ha & Hna & Hla).
  apply last_index_byte_Some in Hj as (a' & b' & Ha' & _ & Hla').
  assert (b' = EmptyString) as ->.
  { rewrite Ha', length_app_s in Hlen. cbn [String.length] in Hlen.
    destruct b'; [done | cbn [String.length] in Hlen; lia]. }
  assert (b <> EmptyString) as Hb.
  { intros ->. rewrite Ha in Ha'.
    apply (f_equal String.length) in Ha'. rewrite !length_app_s in Ha'.
    cbn [String.length] in Ha'. lia. }
  destruct (string_snoc b Hb) as (body & c & ->).
  exists a, body. split; [| done]. rewrite Ha.
  rewrite Ha in Ha'.
  change (a +:+ String "{" (body +:+ String c ""))
    with (a +:+ "{" +:+ (body +:+ String c "")) in Ha'.
  rewrite <- !app_assoc_s in Ha'.
  apply app_snoc_inj in Ha' as [_ ->]. done.
Qed.

Lemma check_tags_bad_member (l : list string) (t : string) :
  t ∈ l -> tag_ok t = false ->
  exists t', t' ∈ l /\ check_tags l = inl (errMalformedTag t').
Proof.
  induction l as [|x l IH]; intros Hin Ht; [by apply elem_of_nil in Hin |].
  destruct (tag_ok x) eqn:Hx.
  - apply elem_of_cons in Hin as [-> | Hin]; [congruence |].
    destruct (IH Hin Ht) as (t' & Hin' & Hc). exists t'.
    split; [apply elem_of_cons; by right |].
    by rewrite check_tags_cons_ok, Hc.
  - exists x. split; [apply elem_of_cons; by left |].
    by apply check_tags_cons_bad.
Qed.

(** ** More about ParseMetricName *)

Lemma ParseMetricName_success_inv (name base : string) (tags : list string) :
  ParseMetricName name = (base, tags, None) ->
  (tags = [] /\ base = name
   /\ byte_in "{" name = false /\ byte_in "}" name = false)
  \/ exists clauses,
       clauses <> []
       /\ name = base +:+ "{" +:+ Join clauses "," +:+ "}"
       /\ byte_in "{" base = false
       /\ forallb (no_byte ",") clauses = true
       /\ forallb tag_ok clauses = true
       /\ tags = map TrimSpace clauses.
Proof.
  intros H. pose proof H as H'. rewrite ParseMetricName_cases in H'.
  destruct (index_byte name "{") as [i|] eqn:Ei,
           (last_index_byte name "}") as [j|] eqn:Ej; try done.
  - destruct (j <? i)%nat eqn:Hlt; [done |].
    destruct (Nat.eqb_spec (S j) (String.length name)) as [Hlen|]; [| done].
    destruct (braced_shape _ _ _ Ei Ej Hlt Hlen) as (b & body & -> & Hb).
    clear H'. rewrite ParseMetricName_braced in H by done.
    destruct (check_tags _) as [e|tags'] eqn:Hc; [done |].
    injection H as <- <-. apply check_tags_inr in Hc as [Hok ->].
    right. exists (Split body ","). split_and!; try done.
    + apply Split_nonempty.
    + by rewrite Join_Split.
    + apply Split_no_byte.
  - injection H' as <- <-. left.
    apply index_byte_None in Ei. apply last_index_byte_None in Ej. done.
Qed.

(** X1. What a successful parse says about its input: either the name has
    no brace at all and is returned as it is, or it is the returned base
    name (free of opening braces) followed by braces around one or more
    comma-separated clauses, each with text after its first colon, and the
    returned tags are these clauses trimmed, in order. *)
Theorem ParseMetricName_success_shape (name base : string) (tags : list string) :
  ParseMetricName name = (base, tags, None) ->
  (tags = [] /\ base = name
   /\ byte_in "{" name = false /\ byte_in "}" name = false)
  \/ exists clauses,
       clauses <> []
       /\ name = base +:+ "{" +:+ Join clauses "," +:+ "}"
       /\ byte_in "{" base = false
       /\ forallb (no_byte ",") clauses = true
       /\ forallb tag_ok clauses = true
       /\ tags = map TrimSpace clauses.
Proof. apply ParseMetricName_success_inv. Qed.

Lemma ParseMetricName_success_shape_witness :
  ParseMetricName "req{a:1, b:2}" = ("req", ["a:1"; "b:2"], None)
  /\ exists clauses,
       "req{a:1, b:2}" = "req" +:+ "{" +:+ Join clauses "," +:+ "}"
       /\ ["a:1"; "b:2"] = map TrimSpace clauses.
Proof.
  split; [reflexivity |].
  destruct (ParseMetricName_success_shape "req{a:1, b:2}" "req"
              ["a:1"; "b:2"] eq_refl)
    as [(H & _) | (clauses & _ & H1 & _ & _ & _ & H2)]; [discriminate H |].
  exists clauses. split; [exact H1 | exact H2].
Defined.

(** X2. Text after the last closing brace is reported as such whatever is
    between the braces: the check comes before the clauses are looked
    at. *)
Theorem ParseMetricName_trailing_content (a b c : string) :
  byte_in "{" a = false ->
  byte_in "}" c = false ->
  c <> EmptyString ->
  ParseMetricName (a +:+ "{" +:+ b +:+ "}" +:+ c)
  = (EmptyString, [],
     Some (errNoClosingLast (a +:+ "{" +:+ b +:+ "}" +:+ c))).
Proof.
  intros Ha Hc Hne. rewrite ParseMetricName_cases.
  simpl String.append. rewrite index_byte_app by done.
  assert (last_index_byte (a +:+ String "{" (b +:+ String "}" c)) "}"
          = Some (String.length a + 1 + String.length b)%nat) as ->.
  { change (String "{" (b +:+ String "}" c))
      with ("{" +:+ (b +:+ String "}" c)).
    rewrite <- !app_assoc_s. rewrite last_index_byte_app by done.
    by rewrite !length_app_s. }
  replace (_ <? _)%nat with false by (symmetry; apply Nat.ltb_ge; lia).
  replace (S _ =? _)%nat with false; [done |].
  symmetry. apply Nat.eqb_neq.
  rewrite length_app_s. cbn [String.length]. rewrite length_app_s.
  cbn [String.length]. destruct c; [done | cbn [String.length]; lia].
Qed.

Lemma ParseMetricName_trailing_content_witness :
  ParseMetricName "req{no colon here}x"
  = (EmptyString, [], Some (errNoClosingLast "req{no colon here}x")).
Proof.
  apply (ParseMetricName_trailing_content "req" "no colon here" "x");
    [reflexivity | reflexivity | discriminate].
Defined.

(** X3. An empty clause is never accepted: empty braces, a comma right
    after the opening brace, a comma right before the closing brace and
    two commas in a row all make the parse fail with the malformed-tag
    error. *)
Theorem ParseMetricName_empty_clause (base : string) :
  byte_in "{" base = false ->
  fails_malformed (base +:+ "{}")
  /\ (forall b, fails_malformed (base +:+ "{" +:+ "," +:+ b +:+ "}"))
  /\ (forall b, fails_malformed (base +:+ "{" +:+ b +:+ "," +:+ "}"))
  /\ (forall b b',
        fails_malformed (base +:+ "{" +:+ b +:+ ",," +:+ b' +:+ "}")).
Proof.
  intros Hbase.
  assert (forall body, EmptyString ∈ Split body "," ->
                       fails_malformed (base +:+ "{" +:+ body +:+ "}"))
    as Hkey.
  { intros body Hin. unfold fails_malformed.
    rewrite ParseMetricName_braced by done.
    destruct (check_tags_bad_member _ EmptyString Hin eq_refl)
      as (t & _ & ->).
    by exists t. }
  split_and!.
  - apply (Hkey EmptyString). apply elem_of_cons. by left.
  - intros b. apply (Hkey ("," +:+ b)). apply elem_of_cons. by left.
  - intros b.
    replace (b +:+ "," +:+ "}") with ((b +:+ ",") +:+ "}")
      by apply app_assoc_s.
    apply Hkey. rewrite Split_app_sep. apply elem_of_app. right.
    apply elem_of_cons. by left.
  - intros b b'.
    replace (b +:+ ",," +:+ b' +:+ "}") with ((b +:+ ",," +:+ b') +:+ "}")
      by (by rewrite !app_assoc_s).
    apply Hkey. simpl (",," +:+ b'). rewrite Split_app_sep.
    apply elem_of_app. right.
    cbn [Split]. rewrite Ascii.eqb_refl. apply elem_of_cons. by left.
Qed.

Lemma ParseMetricName_empty_clause_witness :
  fails_malformed "req{}" /\ fails_malformed "req{a:1,}".
Proof.
  split.
  - apply (proj1 (ParseMetricName_empty_clause "req" eq_refl)).
  - apply (proj1 (proj2 (proj2 (ParseMetricName_empty_clause "req" eq_refl)))
             "a:1").
Defined.

(** ** The tag mapping of a clause *)

Lemma add_raw_tag_piece (rawTags : gmap string string) (kv : string) :
  kv <> EmptyString ->
  add_raw_tag rawTags kv = <[seg_key kv := seg_value kv]> rawTags.
Proof.
  intros Hne. unfold add_raw_tag, seg_key, seg_value.
  replace (String.eqb kv EmptyString) with false by (by destruct kv).
  cbv zeta. by destruct (negb _).
Qed.

Lemma seg_key_colon (k v : string) :
  byte_in ":" k = false ->
  seg_key (k +:+ String ":" v) = Trim (TrimSpace k) quotes
  /\ seg_value (k +:+ String ":" v) = Trim (TrimSpace v) quotes.
Proof.
  intros Hk. unfold seg_key, seg_value, SplitN.
  cbn [Z.eqb Z.ltb Z.compare]. change (Z.to_nat 2) with 2%nat.
  by rewrite split_upto_2_app.
Qed.

Lemma seg_key_bare (k : string) :
  byte_in ":" k = false ->
  seg_key k = Trim (TrimSpace k) quotes /\ seg_value k = EmptyString.
Proof.
  intros Hk. unfold seg_key, seg_value, SplitN.
  cbn [Z.eqb Z.ltb Z.compare]. change (Z.to_nat 2) with 2%nat.
  by rewrite split_upto_2_no_sep.
Qed.

Lemma raw_tags_app (s t : string) :
  raw_tags (s +:+ String "," t)
  = fold_left add_raw_tag (Split t ",") (raw_tags s).
Proof. unfold raw_tags. cbv zeta. by rewrite Split_app_sep, fold_left_app. Qed.

Lemma raw_tags_Join (l : list string) :
  l <> [] -> forallb (no_byte ",") l = true ->
  raw_tags (Join l ",") = fold_left add_raw_tag l ∅.
Proof. intros Hne Hl. unfold raw_tags. cbv zeta. by rewrite Split_Join. Qed.

(** X4. The last piece of a clause decides its key: whatever the pieces
    before it say, a final piece [k:v] sets the key of [k] to the value of
    [v] and leaves the other keys as the earlier pieces set them. *)
Theorem raw_tags_last_piece_wins (s k v : string) :
  byte_in ":" k = false ->
  byte_in "," k = false ->
  byte_in "," v = false ->
  raw_tags (s +:+ "," +:+ k +:+ ":" +:+ v)
  = <[Trim (TrimSpace k) quotes := Trim (TrimSpace v) quotes]> (raw_tags s).
Proof.
  intros Hk Hck Hcv. simpl ("," +:+ _). rewrite raw_tags_app.
  rewrite Split_no_sep.
  2: { rewrite byte_in_app, Hck. simpl. by rewrite Hcv. }
  cbn [fold_left]. rewrite add_raw_tag_piece by (by destruct k).
  by destruct (seg_key_colon k v Hk) as [-> ->].
Qed.

Lemma raw_tags_last_piece_wins_witness :
  raw_tags "a:1,b:2,a:3" = <["a" := "3"]> (raw_tags "a:1,b:2")
  /\ raw_tags "a:1,b:2,a:3" !! "a" = Some "3".
Proof.
  split.
  - apply (raw_tags_last_piece_wins "a:1,b:2" "a" "3"); reflexivity.
  - reflexivity.
Defined.

Lemma fold_add_raw_tag_perm (l l' : list string) :
  Permutation l l' ->
  Forall (fun kv => kv <> EmptyString) l ->
  NoDup (seg_key <$> l) ->
  forall rawTags : gmap string string,
    fold_left add_raw_tag l rawTags = fold_left add_raw_tag l' rawTags.
Proof.
  induction 1 as [| x l l' Hp IH | x y l | l l' l'' Hp1 IH1 Hp2 IH2];
    intros Hne Hnd rawTags.
  - done.
  - cbn [fold_left]. apply IH.
    + by inversion Hne.
    + rewrite fmap_cons in Hnd. by apply NoDup_cons in Hnd as [_ ?].
  - cbn [fold_left]. f_equal.
    apply Forall_cons in Hne as [Hy Hne].
    apply Forall_cons in Hne as [Hx _].
    rewrite !fmap_cons in Hnd.
    apply NoDup_cons in Hnd as [Hyx _].
    rewrite !add_raw_tag_piece by done.
    apply insert_insert_ne. intros E. apply Hyx.
    apply elem_of_cons. by left.
  - rewrite IH1 by done. apply IH2.
    + by rewrite <- Hp1.
    + by rewrite <- Hp1.
Qed.

(** X5. The order of the pieces does not matter when their keys differ:
    two clauses made of the same non-empty, comma-free pieces in different
    orders give the same tag mapping. *)
Theorem raw_tags_order_irrelevant (l l' : list string) :
  l <> [] ->
  forallb (no_byte ",") l = true ->
  Forall (fun kv => kv <> EmptyString) l ->
  NoDup (seg_key <$> l) ->
  Permutation l l' ->
  raw_tags (Join l ",") = raw_tags (Join l' ",").
Proof.
  intros Hne Hcomma Hpieces Hkeys Hperm.
  rewrite !raw_tags_Join; try done.
  - by apply fold_add_raw_tag_perm.
  - intros ->. apply Permutation_nil_r in Hperm. done.
  - apply forallb_forall. intros x Hx.
    rewrite forallb_forall in Hcomma. apply Hcomma.
    eapply Permutation_in; [symmetry; exact Hperm | exact Hx].
Qed.

Lemma raw_tags_order_irrelevant_witness :
  raw_tags "status:200,method:GET,'name':x"
  = raw_tags "'name':x,status:200,method:GET".
Proof.
  apply (raw_tags_order_irrelevant
           ["status:200"; "method:GET"; "'name':x"]
           ["'name':x"; "status:200"; "method:GET"]).
  - discriminate.
  - reflexivity.
  - repeat constructor; discriminate.
  - vm_compute. repeat constructor; rewrite ?elem_of_cons, ?elem_of_nil;
      intros H; repeat destruct H as [H | H]; discriminate || exact H.
  - change (Permutation (["status:200"; "method:GET"] ++ ["'name':x"])
              (["'name':x"] ++ ["status:200"; "method:GET"])).
    apply Permutation_app_comm.
Defined.

(** X6. Commas with nothing between them add nothing: a comma in front, a
    comma at the end and a doubled comma inside leave the tag mapping of
    the clause as it is without them. *)
Theorem raw_tags_stray_commas (s t : string) :
  raw_tags ("," +:+ s) = raw_tags s
  /\ raw_tags (s +:+ ",") = raw_tags s
  /\ raw_tags (s +:+ ",," +:+ t) = raw_tags (s +:+ "," +:+ t).
Proof.
  split_and!.
  - unfold raw_tags. cbv zeta. simpl ("," +:+ s). cbn [Split].
    by rewrite Ascii.eqb_refl.
  - by rewrite raw_tags_app.
  - simpl (",," +:+ t). simpl ("," +:+ t). rewrite !raw_tags_app.
    cbn [Split]. by rewrite Ascii.eqb_refl.
Qed.

(** X7. A piece without colon stands for its key with the empty value, the
    same as the piece with a colon and nothing after it. *)
Theorem raw_tags_bare_key (s k : string) :
  k <> EmptyString ->
  byte_in ":" k = false ->
  byte_in "," k = false ->
  raw_tags (s +:+ "," +:+ k)
  = <[Trim (TrimSpace k) quotes := EmptyString]> (raw_tags s)
  /\ raw_tags (s +:+ "," +:+ k +:+ ":") = raw_tags (s +:+ "," +:+ k)
  /\ raw_tags k = raw_tags (k +:+ ":").
Proof.
  intros Hne Hk Hc.
  assert (forall m : gmap string string,
            add_raw_tag m k = <[Trim (TrimSpace k) quotes := EmptyString]> m)
    as Hbare.
  { intros m. rewrite add_raw_tag_piece by done.
    by destruct (seg_key_bare k Hk) as [-> ->]. }
  assert (forall m : gmap string string,
            add_raw_tag m (k +:+ ":")
            = <[Trim (TrimSpace k) quotes := EmptyString]> m)
    as Hcolon.
  { intros m. rewrite add_raw_tag_piece by (by destruct k).
    by destruct (seg_key_colon k EmptyString Hk) as [-> ->]. }
  assert (byte_in "," (k +:+ ":") = false) as Hc'.
  { by rewrite byte_in_app, Hc. }
  split_and!.
  - simpl ("," +:+ k). rewrite raw_tags_app, Split_no_sep by done.
    cbn [fold_left]. apply Hbare.
  - simpl ("," +:+ _). rewrite !raw_tags_app, !Split_no_sep by done.
    cbn [fold_left]. by rewrite Hbare, Hcolon.
  - unfold raw_tags. cbv zeta. rewrite !Split_no_sep by done.
    cbn [fold_left]. by rewrite Hbare, Hcolon.
Qed.

Lemma raw_tags_bare_key_witness :
  raw_tags "a:1,b" = <["b" := EmptyString]> (raw_tags "a:1")
  /\ raw_tags "a:1,b:" = raw_tags "a:1,b"
  /\ raw_tags "b" = raw_tags "b:".
Proof.
  apply (raw_tags_bare_key "a:1" "b"); [discriminate | reflexivity..].
Defined.

(** ** The outcomes of AddSubmetric *)

(** X8. Two clauses that stand for the same tag mapping cannot both be
    added to a parent: once the first call has returned (with a submetric
    or with an error), the second fails as a duplicate and leaves the
    store as the first call left it. *)
Theorem AddSubmetric_same_tags_refused
  (h h1 : heap) (pa : nat) (pm : Metric.t) (kv1 kv2 : string) (r1 : result) :
  metrics h !! pa = Some pm ->
  TrimSpace kv1 <> EmptyString ->
  TrimSpace kv2 <> EmptyString ->
  raw_tags (TrimSpace kv1) = raw_tags (TrimSpace kv2) ->
  AddSubmetric (Some pa) kv1 h = (r1, h1) ->
  r1 <> Panic ->
  exists sm,
    AddSubmetric (Some pa) kv2 h1
    = (Return None
         (Some (errDuplicate (TrimSpace kv2) (Metric.Name pm)
                  (Submetric.Name sm))), h1).
Proof. apply AddSubmetric_twice. Qed.

Lemma AddSubmetric_same_tags_refused_witness :
  exists sm,
    AddSubmetric (Some 0%nat) "'status' : 200,," example_store_1
    = (Return None
         (Some (errDuplicate "'status' : 200,," "req" (Submetric.Name sm))),
       example_store_1).
Proof.
  apply (AddSubmetric_same_tags_refused example_store example_store_1 0
           (Metric.mk "req" Trend Time None [] [] None (Some TrendSink)
              false)
           "status:200" "'status' : 200,," (Return (Some 0%nat) None));
    [reflexivity | discriminate | discriminate | reflexivity
    | vm_compute; reflexivity | discriminate].
Defined.

(** X9. On a parent of a supported kind whose submetric pointers are all
    valid, AddSubmetric never panics and its outcome is decided by the
    trimmed clause alone: the empty-criteria error when it is empty, the
    duplicate error when some submetric has its tag mapping, and a new
    submetric otherwise. *)
Theorem AddSubmetric_outcome
  (h : heap) (pa : nat) (pm : Metric.t) (subs : list Submetric.t)
  (keyValues : string) :
  metrics h !! pa = Some pm ->
  loaded_submetrics h (Metric.Submetrics pm) = Some subs ->
  is_Some (sink_for (Metric.Type_ pm)) ->
  let kv := TrimSpace keyValues in
  (kv = EmptyString
   /\ AddSubmetric (Some pa) keyValues h
      = (Return None (Some (errEmptyCriteria (Metric.Name pm))), h))
  \/ (kv <> EmptyString
      /\ exists sm,
           sm ∈ subs /\ Submetric.Tags sm = raw_tags kv
           /\ AddSubmetric (Some pa) keyValues h
              = (Return None
                   (Some (errDuplicate kv (Metric.Name pm)
                            (Submetric.Name sm))), h))
  \/ (kv <> EmptyString
      /\ (forall sm, sm ∈ subs -> Submetric.Tags sm <> raw_tags kv)
      /\ exists h',
           AddSubmetric (Some pa) keyValues h
           = (Return (Some (length (submetrics h))) None, h')).
Proof.
  intros Hpm Hl [sink Hsink] kv. subst kv.
  destruct (decide (TrimSpace keyValues = EmptyString)) as [He|Hne].
  { left. split; [done |]. by apply AddSubmetric_empty. }
  right. rewrite (AddSubmetric_nonempty _ _ _ _ Hpm Hne). cbv zeta.
  rewrite (find_equal_loaded _ _ _ _ Hl). unfold IntoSampleTags.
  destruct (find _ subs) as [sm|] eqn:Ef.
  - left. split; [done |]. exists sm.
    apply find_some in Ef as [Hin Heq].
    split_and!; [by apply list_elem_of_In | by apply IsEqual_true | done].
  - right. split; [done |]. split.
    + intros sm Hin%list_elem_of_In.
      pose proof (find_none _ _ Ef sm Hin) as Hf. cbv beta in Hf.
      by apply IsEqual_false.
    + rewrite Hsink. by eexists.
Qed.

Lemma AddSubmetric_outcome_witness :
  exists h',
    AddSubmetric (Some 0%nat) "method:GET" example_store_1
    = (Return (Some 1%nat) None, h').
Proof.
  destruct (AddSubmetric_outcome example_store_1 0
              (Metric.mk "req" Trend Time None [] [Some 0%nat] None
                 (Some TrendSink) false)
              [Submetric.mk "req{status:200}" "status:200"
                 (raw_tags "status:200") (Some 1%nat) (Some 0%nat)]
              "method:GET")
    as [[H _] | [[_ (sm & Hin & Htags & _)] | [_ [_ H]]]];
    [reflexivity | reflexivity | by eexists | discriminate H | | exact H].
  exfalso. apply list_elem_of_singleton in Hin. subst sm.
  apply (f_equal (fun m : gmap string string => m !! "status")) in Htags.
  vm_compute in Htags. discriminate Htags.
Defined.

(** X10. On a parent whose kind is none of the four supported ones, a
    clause that is neither empty nor a duplicate makes AddSubmetric panic:
    newMetric returns nil and the nil pointer is dereferenced.  By then the
    Submetric object exists, but it is in no list and has no backing
    metric, and the parent is as before.  The two error returns come
    first and are not affected. *)
Theorem AddSubmetric_unsupported_kind
  (h : heap) (pa : nat) (pm : Metric.t) (subs : list Submetric.t)
  (keyValues : string) :
  metrics h !! pa = Some pm ->
  loaded_submetrics h (Metric.Submetrics pm) = Some subs ->
  sink_for (Metric.Type_ pm) = None ->
  TrimSpace keyValues <> EmptyString ->
  (forall sm, sm ∈ subs -> Submetric.Tags sm <> raw_tags (TrimSpace keyValues)) ->
  AddSubmetric (Some pa) keyValues h
  = (Panic,
     mkHeap (metrics h)
       (submetrics h
        ++ [Submetric.mk
              (Metric.Name pm +:+ "{" +:+ TrimSpace keyValues +:+ "}")
              (TrimSpace keyValues) (raw_tags (TrimSpace keyValues))
              None (Some pa)])).
Proof.
  intros Hpm Hl Hsink Hne Hfresh.
  rewrite (AddSubmetric_nonempty _ _ _ _ Hpm Hne). cbv zeta.
  rewrite (find_equal_all_differ _ _ _ _ Hl).
  - by rewrite Hsink.
  - apply Forall_forall. intros sm Hin. by apply Hfresh.
Qed.

Lemma AddSubmetric_unsupported_kind_witness :
  fst (AddSubmetric (Some 0%nat) "a:1"
         (mkHeap [Metric.mk "odd" (OtherMetricType 7) Default None [] []
                    None None false] []))
  = Panic.
Proof.
  rewrite (AddSubmetric_unsupported_kind
             (mkHeap [Metric.mk "odd" (OtherMetricType 7) Default None [] []
                        None None false] [])
             0 (Metric.mk "odd" (OtherMetricType 7) Default None [] []
                  None None false) [] "a:1");
    [reflexivity | reflexivity | reflexivity | reflexivity | discriminate |].
  intros sm Hin. by apply elem_of_nil in Hin.
Defined.

(** X11. The errors of AddSubmetric are not name-parsing errors: they wrap
    nothing, so errors.Is does not find ErrMetricNameParsing in them. *)
Theorem AddSubmetric_errors_not_parsing
  (m : ptr) (keyValues : string) (h h' : heap) (sp : ptr) (e : error) :
  AddSubmetric m keyValues h = (Return sp (Some e), h') ->
  Unwrap e = None /\ errors_Is e ErrMetricNameParsing = false.
Proof.
  destruct m as [pa|]; [| done].
  destruct (metrics h !! pa) as [pm|] eqn:Hpm.
  2: { by rewrite AddSubmetric_dangling. }
  destruct (decide (TrimSpace keyValues = EmptyString)) as [He|Hne].
  - rewrite (AddSubmetric_empty _ _ _ _ Hpm He). by intros [= <- <- <-].
  - rewrite (AddSubmetric_nonempty _ _ _ _ Hpm Hne). cbv zeta.
    destruct (find_equal _ _ _) as [|sm|]; [done | |].
    + by intros [= <- <- <-].
    + by destruct (sink_for _).
Qed.

Lemma AddSubmetric_errors_not_parsing_witness :
  errors_Is (errEmptyCriteria "req") ErrMetricNameParsing = false.
Proof.
  apply (AddSubmetric_errors_not_parsing (Some 0%nat) " " example_store
           example_store None (errEmptyCriteria "req")).
  reflexivity.
Defined.

(** ** What a call changes in the store *)

Lemma AddSubmetric_effect (m : ptr) (keyValues : string) (h h' : heap)
  (r : result) :
  AddSubmetric m keyValues h = (r, h') ->
  (h' = h /\ succeeded r = false)
  \/ (exists pa pm,
        m = Some pa /\ metrics h !! pa = Some pm
        /\ sink_for (Metric.Type_ pm) = None /\ r = Panic
        /\ h' = mkHeap (metrics h)
                  (submetrics h
                   ++ [new_submetric pa pm (TrimSpace keyValues) None]))
  \/ (exists pa pm sink,
        m = Some pa /\ metrics h !! pa = Some pm
        /\ TrimSpace keyValues <> EmptyString
        /\ find_equal h (Metric.Submetrics pm)
             (IntoSampleTags (raw_tags (TrimSpace keyValues))) = ScanNone
        /\ sink_for (Metric.Type_ pm) = Some sink
        /\ r = Return (Some (length (submetrics h))) None
        /\ h' = store_after_add h pa pm (TrimSpace keyValues) sink).
Proof.
  destruct m as [pa|]; [| intros [= <- <-]; by left].
  destruct (metrics h !! pa) as [pm|] eqn:Hpm.
  2: { rewrite AddSubmetric_dangling by done. intros [= <- <-]. by left. }
  destruct (decide (TrimSpace keyValues = EmptyString)) as [He|Hne].
  { rewrite (AddSubmetric_empty _ _ _ _ Hpm He). intros [= <- <-]. by left. }
  rewrite (AddSubmetric_nonempty _ _ _ _ Hpm Hne). cbv zeta.
  destruct (find_equal _ _ _) eqn:Hscan;
    [intros [= <- <-]; by left | intros [= <- <-]; by left |].
  destruct (sink_for _) as [sink|] eqn:Hsink; intros [= <- <-]; right.
  - right. exists pa, pm, sink. split_and!; try done.
    unfold store_after_add. cbv zeta.
    by rewrite (alter_lookup_insert _ _ _ _ Hpm).
  - left. exists pa, pm. done.
Qed.

Lemma set_Submetrics_same (pm : Metric.t) :
  Metric.set_Submetrics pm (Metric.Submetrics pm ++ []) = pm.
Proof. destruct pm. unfold Metric.set_Submetrics. cbn. by rewrite app_nil_r. Qed.

(** X12. A call never touches what is already in the store, except that
    it may put one pointer at the end of the parent's Submetrics: every
    submetric keeps its address and content, every metric keeps its
    address and all its other fields, and at most one submetric and one
    metric are added, at the end. *)
Theorem AddSubmetric_frame (m : ptr) (keyValues : string) (h h' : heap)
  (r : result) :
  AddSubmetric m keyValues h = (r, h') ->
  (exists extra, submetrics h' = submetrics h ++ extra
                 /\ (length extra <= 1)%nat)
  /\ (length (metrics h) <= length (metrics h') <= S (length (metrics h)))%nat
  /\ forall (a : nat) (pm : Metric.t),
       metrics h !! a = Some pm ->
       exists l,
         metrics h' !! a
         = Some (Metric.set_Submetrics pm (Metric.Submetrics pm ++ l))
         /\ (length l <= 1)%nat
         /\ (m <> Some a -> l = []).
Proof.
  intros H. apply AddSubmetric_effect in H
    as [[-> _] | [(pa & pm & -> & Hpm & _ & _ & ->)
                 | (pa & pm & sink & -> & Hpm & _ & _ & _ & _ & ->)]].
  - split_and!.
    + exists []. split; [by rewrite app_nil_r | cbn; lia].
    + lia.
    + lia.
    + intros a pm' Ha. exists []. rewrite set_Submetrics_same.
      split_and!; [done | cbn; lia | done].
  - cbn [metrics submetrics]. split_and!.
    + eexists [_]. split; [done | cbn; lia].
    + lia.
    + lia.
    + intros a pm' Ha. exists []. rewrite set_Submetrics_same.
      split_and!; [done | cbn; lia | done].
  - unfold store_after_add. cbn [metrics submetrics]. split_and!.
    + eexists [_]. split; [done | cbn; lia].
    + rewrite length_app, length_insert. lia.
    + rewrite length_app, length_insert. cbn. lia.
    + intros a pm' Ha. pose proof (lookup_lt_Some _ _ _ Ha) as Hlt.
      rewrite lookup_app_l by (by rewrite length_insert).
      destruct (decide (pa = a)) as [-> | Hne].
      * rewrite list_lookup_insert_eq by done.
        assert (pm' = pm) as -> by congruence.
        exists [Some (length (submetrics h))].
        split_and!; [done | cbn; lia | done].
      * rewrite list_lookup_insert_ne by done.
        exists []. rewrite set_Submetrics_same.
        split_and!; [done | cbn; lia | done].
Qed.

Lemma AddSubmetric_frame_witness :
  exists l,
    metrics example_store_1 !! 0%nat
    = Some (Metric.set_Submetrics
              (Metric.mk "req" Trend Time None [] [] None (Some TrendSink)
                 false) ([] ++ l))
    /\ (length l <= 1)%nat.
Proof.
  destruct (proj2 (proj2
              (AddSubmetric_frame (Some 0%nat) "status:200" example_store
                 example_store_1 (Return (Some 0%nat) None) eq_refl))
              0%nat
              (Metric.mk "req" Trend Time None [] [] None (Some TrendSink)
                 false) eq_refl)
    as (l & H1 & H2 & _).
  exists l. split; [exact H1 | exact H2].
Defined.

(** ** Runs of calls *)

Lemma store_after_add_parent (h : heap) (pa : nat) (pm : Metric.t)
  (kv : string) (sink : Sink) :
  metrics h !! pa = Some pm ->
  metrics (store_after_add h pa pm kv sink) !! pa
  = Some (Metric.set_Submetrics pm
            (Metric.Submetrics pm ++ [Some (length (submetrics h))])).
Proof.
  intros Hpm. pose proof (lookup_lt_Some _ _ _ Hpm) as Hlt.
  unfold store_after_add. cbn [metrics].
  rewrite lookup_app_l by (by rewrite length_insert).
  by apply list_lookup_insert_eq.
Qed.

(** X13. When every call of a run on one parent succeeds, the run appends
    one submetric per clause, in the order of the calls: the parent's
    Submetrics grows by the addresses handed out one after the other, the
    results are these addresses, the new submetrics carry the trimmed
    clauses in order, and the submetrics that were there are unchanged. *)
Theorem add_all_appends_in_order
  (kvs : list string) (h h' : heap) (pa : nat) (pm : Metric.t)
  (rs : list result) :
  metrics h !! pa = Some pm ->
  add_all (Some pa) kvs h = (rs, h') ->
  forallb succeeded rs = true ->
  let n := length (submetrics h) in
  rs = (fun a => Return (Some a) None) <$> seq n (length kvs)
  /\ (exists pm',
        metrics h' !! pa = Some pm'
        /\ Metric.Submetrics pm'
           = Metric.Submetrics pm ++ (Some <$> seq n (length kvs)))
  /\ take n (submetrics h') = submetrics h
  /\ Submetric.Suffix <$> drop n (submetrics h') = TrimSpace <$> kvs.
Proof.
  revert h pm rs.
  induction kvs as [|kv kvs IH]; intros h pm rs Hpm Hrun Hok; cbv zeta.
  - injection Hrun as <- <-. split_and!; [done | | |].
    + exists pm. by rewrite app_nil_r.
    + by rewrite firstn_all.
    + by rewrite drop_all.
  - cbn [add_all] in Hrun.
    destruct (AddSubmetric (Some pa) kv h) as [r h1] eqn:Hcall.
    destruct (add_all (Some pa) kvs h1) as [rs' h2] eqn:Hrest.
    injection Hrun as <- <-. cbn [forallb] in Hok.
    apply andb_true_iff in Hok as [Hr Hok].
    apply AddSubmetric_effect in Hcall
      as [[_ Hf] | [(? & ? & _ & _ & _ & -> & _)
                   | (pa' & pm' & sink & [= <-] & Hpm' & _ & _ & _ & -> & ->)]];
      [congruence | done |].
    assert (pm' = pm) as -> by congruence.
    remember (length (submetrics h)) as n eqn:Hn.
    pose proof (store_after_add_parent h pa pm (TrimSpace kv) sink Hpm) as Hp1.
    rewrite <- Hn in Hp1.
    destruct (IH _ _ _ Hp1 Hrest Hok)
      as (Hrs & (pm2 & Hpm2 & Hsubs) & Htake & Hdrop).
    assert (length (submetrics (store_after_add h pa pm (TrimSpace kv) sink))
            = S n) as Hlen.
    { unfold store_after_add. cbn [submetrics]. rewrite length_app. cbn.
      lia. }
    rewrite Hlen in Hrs, Hsubs, Htake, Hdrop.
    cbn [Metric.set_Submetrics Metric.Submetrics] in Hsubs.
    assert (submetrics h2
            = submetrics h ++ new_submetric pa pm (TrimSpace kv)
                               (Some (length (metrics h)))
                              :: drop (S n) (submetrics h2)) as Hh2.
    { rewrite <- (take_drop (S n) (submetrics h2)) at 1. rewrite Htake.
      unfold store_after_add. cbn [submetrics]. by rewrite <- app_assoc. }
    split_and!.
    + cbn [length seq fmap list_fmap]. by rewrite Hrs.
    + exists pm2. split; [done |]. rewrite Hsubs.
      cbn [length seq]. rewrite fmap_cons. by rewrite <- app_assoc.
    + rewrite Hh2. by rewrite take_app_length'.
    + rewrite Hh2 at 1. rewrite drop_app_length' by done.
      rewrite fmap_cons. cbn [new_submetric Submetric.Suffix].
      by rewrite Hdrop.
Qed.

Lemma add_all_appends_in_order_witness :
  exists rs h',
    add_all (Some 0%nat) [" a:1"; "b:2 "; "c"] example_store = (rs, h')
    /\ rs = [Return (Some 0%nat) None; Return (Some 1%nat) None;
             Return (Some 2%nat) None]
    /\ Submetric.Suffix <$> submetrics h' = ["a:1"; "b:2"; "c"].
Proof.
  destruct (add_all (Some 0%nat) [" a:1"; "b:2 "; "c"] example_store)
    as [rs h'] eqn:E.
  exists rs, h'. split; [reflexivity |].
  destruct (add_all_appends_in_order [" a:1"; "b:2 "; "c"] example_store h'
              0 (Metric.mk "req" Trend Time None [] [] None (Some TrendSink)
                   false) rs eq_refl E)
    as (H1 & _ & _ & H2).
  - vm_compute in E. by injection E as <- _.
  - split; [exact H1 | exact H2].
Defined.

(** ** What holds in every store the two functions lead to *)

Section StoreAfterAdd.

Context (h : heap) (pa : nat) (pm : Metric.t) (kv : string) (sink : Sink).
Hypothesis Hpm : metrics h !! pa = Some pm.

Abbreviation h' := (store_after_add h pa pm kv sink).
Abbreviation sa := (length (submetrics h)).
Abbreviation ma := (length (metrics h)).
Abbreviation pm' :=
  (Metric.set_Submetrics pm (Metric.Submetrics pm ++ [Some sa])).

Lemma after_add_metric_inv (a : nat) (x : Metric.t) :
  metrics h' !! a = Some x ->
  (a <> pa /\ metrics h !! a = Some x)
  \/ (a = pa /\ x = pm')
  \/ (a = ma /\ x = new_backing pm kv sa sink).
Proof.
  unfold store_after_add. cbn [metrics].
  pose proof (lookup_lt_Some _ _ _ Hpm) as Hlt.
  intros [Ha | [Hge Ha]]%lookup_app_Some.
  - destruct (decide (a = pa)) as [-> | Hne].
    + rewrite list_lookup_insert_eq in Ha by done. injection Ha as <-.
      right. by left.
    + rewrite list_lookup_insert_ne in Ha by done. by left.
  - rewrite length_insert in Hge, Ha. right. right.
    destruct (a - length (metrics h))%nat eqn:E; [| done].
    injection Ha as <-. split; [lia | done].
Qed.

Lemma after_add_metric_old (a : nat) (x : Metric.t) :
  metrics h !! a = Some x ->
  exists x',
    metrics h' !! a = Some x'
    /\ Metric.Name x' = Metric.Name x
    /\ Metric.Type_ x' = Metric.Type_ x
    /\ Metric.Contains x' = Metric.Contains x
    /\ Metric.Sub x' = Metric.Sub x
    /\ Metric.Sink x' = Metric.Sink x
    /\ (forall p, p ∈ Metric.Submetrics x -> p ∈ Metric.Submetrics x').
Proof.
  intros Ha. unfold store_after_add. cbn [metrics].
  pose proof (lookup_lt_Some _ _ _ Ha) as Hlt.
  rewrite lookup_app_l by (by rewrite length_insert).
  destruct (decide (a = pa)) as [-> | Hne].
  - rewrite list_lookup_insert_eq by done.
    assert (x = pm) as -> by congruence.
    eexists. split; [done |]. cbn. split_and!; try done.
    intros p Hp. apply elem_of_app. by left.
  - rewrite list_lookup_insert_ne by done. by exists x.
Qed.

Lemma after_add_metric_new :
  metrics h' !! ma = Some (new_backing pm kv sa sink).
Proof.
  unfold store_after_add. cbn [metrics].
  apply list_lookup_middle. by rewrite length_insert.
Qed.

Lemma after_add_submetric_inv (s : nat) (y : Submetric.t) :
  submetrics h' !! s = Some y ->
  submetrics h !! s = Some y
  \/ (s = sa /\ y = new_submetric pa pm kv (Some ma)).
Proof.
  unfold store_after_add. cbn [submetrics].
  intros [Hs | [Hge Hs]]%lookup_app_Some; [by left |]. right.
  destruct (s - length (submetrics h))%nat eqn:E; [| done].
  injection Hs as <-. split; [lia | done].
Qed.

Lemma after_add_submetric_old (s : nat) (y : Submetric.t) :
  submetrics h !! s = Some y -> submetrics h' !! s = Some y.
Proof.
  intros Hs. unfold store_after_add. cbn [submetrics].
  rewrite lookup_app_l; [done |]. by eapply lookup_lt_Some.
Qed.

Lemma after_add_submetric_new :
  submetrics h' !! sa = Some (new_submetric pa pm kv (Some ma)).
Proof.
  unfold store_after_add. cbn [submetrics].
  by apply list_lookup_middle.
Qed.

Lemma after_add_kinds :
  sink_for (Metric.Type_ pm) = Some sink ->
  kinds_supported h -> kinds_supported h'.
Proof.
  intros Hsink Hk a x Ha.
  apply after_add_metric_inv in Ha as [[_ Ha] | [[_ ->] | [_ ->]]].
  - by apply (Hk a).
  - apply (Hk pa pm Hpm).
  - by exists sink.
Qed.

Lemma after_add_links : links_agree h -> links_agree h'.
Proof.
  intros (H1 & H2 & H3). split_and!.
  - intros a x p Ha Hp.
    apply after_add_metric_inv in Ha as [[_ Ha] | [[-> ->] | [_ ->]]].
    + destruct (H1 a x p Ha Hp) as (s & sub & -> & Hs & Hpar).
      exists s, sub. by rewrite (after_add_submetric_old _ _ Hs).
    + cbn in Hp. apply elem_of_app in Hp as [Hp | ->%list_elem_of_singleton].
      * destruct (H1 pa pm p Hpm Hp) as (s & sub & -> & Hs & Hpar).
        exists s, sub. by rewrite (after_add_submetric_old _ _ Hs).
      * exists sa, (new_submetric pa pm kv (Some ma)).
        by rewrite after_add_submetric_new.
    + by apply elem_of_nil in Hp.
  - intros s y Hs. apply after_add_submetric_inv in Hs as [Hs | [-> ->]].
    + destruct (H2 s y Hs) as (a & x & b & z & Hpar & Ha & Hin & Hm & Hb & Hsub).
      destruct (after_add_metric_old a x Ha) as (x' & Ha' & _ & _ & _ & _ & _ & Hsubs).
      destruct (after_add_metric_old b z Hb) as (z' & Hb' & _ & _ & _ & Hz & _).
      exists a, x', b, z'. split_and!; try done; [by apply Hsubs | congruence].
    + exists pa, pm', ma, (new_backing pm kv sa sink).
      split_and!; try done.
      * destruct (after_add_metric_old pa pm Hpm) as (x' & Ha' & _).
        apply after_add_metric_inv in Ha' as Hx.
        destruct Hx as [[? _] | [[_ ->] | [Hx _]]]; [done | done |].
        apply lookup_lt_Some in Hpm. lia.
      * cbn. apply elem_of_app. right. by apply list_elem_of_singleton.
      * apply after_add_metric_new.
  - intros b z s Hb Hsub.
    apply after_add_metric_inv in Hb as [[_ Hb] | [[-> ->] | [-> ->]]].
    + destruct (H3 b z s Hb Hsub) as (y & Hs & Hm).
      exists y. by rewrite (after_add_submetric_old _ _ Hs).
    + destruct (H3 pa pm s Hpm Hsub) as (y & Hs & Hm).
      exists y. by rewrite (after_add_submetric_old _ _ Hs).
    + cbn in Hsub. injection Hsub as <-.
      exists (new_submetric pa pm kv (Some ma)).
      by rewrite after_add_submetric_new.
Qed.

Lemma after_add_match :
  kv <> EmptyString ->
  links_agree h -> submetrics_match h -> submetrics_match h'.
Proof.
  intros Hkv (_ & H2 & _) Hm s a b y x z Hs Hpar Ha Hmet Hb.
  apply after_add_submetric_inv in Hs as [Hs | [-> ->]].
  - destruct (H2 s y Hs)
      as (a0 & x0 & b0 & z0 & Hpar0 & Ha0 & _ & Hmet0 & Hb0 & _).
    assert (a0 = a) as -> by congruence.
    assert (b0 = b) as -> by congruence.
    destruct (after_add_metric_old a x0 Ha0)
      as (x' & Ha' & Hn & Ht & Hc & _).
    destruct (after_add_metric_old b z0 Hb0)
      as (z' & Hb' & Hn' & Ht' & Hc' & _).
    assert (x' = x) as -> by congruence.
    assert (z' = z) as -> by congruence.
    rewrite Hn, Ht, Hc, Hn', Ht', Hc'.
    by apply (Hm s a b).
  - cbn in Hpar, Hmet. injection Hpar as <-. injection Hmet as <-.
    rewrite after_add_metric_new in Hb. injection Hb as <-.
    destruct (after_add_metric_old pa pm Hpm)
      as (x' & Ha' & Hn & Ht & Hc & _).
    assert (x' = x) as -> by congruence.
    unfold new_submetric, new_backing. cbn. by rewrite Hn, Ht, Hc.
Qed.

End StoreAfterAdd.

Lemma newMetric_well_linked (name : string) (mt : MetricType)
  (vt : list ValueType) (h : heap) :
  well_linked h -> well_linked (snd (newMetric name mt vt h)).
Proof.
  intros (Hk & (H1 & H2 & H3) & Hm). unfold newMetric.
  destruct (sink_for mt) as [sink|] eqn:Hsink; [| done].
  cbn [alloc_metric snd].
  set (x := Metric.mk name mt _ None [] [] None (Some sink) false).
  assert (forall a y, (metrics h ++ [x]) !! a = Some y ->
                      metrics h !! a = Some y
                      \/ (a = length (metrics h) /\ y = x)) as Hinv.
  { intros a y [Ha | [Hge Ha]]%lookup_app_Some; [by left |]. right.
    destruct (a - length (metrics h))%nat eqn:E; [| done].
    injection Ha as <-. split; [lia | done]. }
  assert (forall a y, metrics h !! a = Some y ->
                      (metrics h ++ [x]) !! a = Some y) as Hold.
  { intros a y Ha. rewrite lookup_app_l; [done |]. by eapply lookup_lt_Some. }
  unfold well_linked, kinds_supported, links_agree, submetrics_match.
  split_and!.
  - intros a y Ha. cbn [metrics] in Ha.
    apply Hinv in Ha as [Ha | [_ ->]]; [by apply (Hk a) |]. by exists sink.
  - intros a y p Ha Hp. cbn [metrics submetrics] in *.
    apply Hinv in Ha as [Ha | [_ ->]]; [by apply (H1 a y) |].
    by apply elem_of_nil in Hp.
  - intros s y Hs. cbn [metrics submetrics] in *.
    destruct (H2 s y Hs) as (a & pm & b & bm & ? & Ha & ? & ? & Hb & ?).
    exists a, pm, b, bm. split_and!; auto.
  - intros b bm s Hb Hsub. cbn [metrics submetrics] in *.
    apply Hinv in Hb as [Hb | [_ ->]]; [by apply (H3 b bm) | done].
  - intros s a b y pm bm Hs Hpar Ha Hmet Hb. cbn [metrics submetrics] in *.
    destruct (H2 s y Hs)
      as (a0 & pm0 & b0 & bm0 & Hpar0 & Ha0 & _ & Hmet0 & Hb0 & _).
    assert (a0 = a) as -> by congruence.
    assert (b0 = b) as -> by congruence.
    rewrite (Hold _ _ Ha0) in Ha. rewrite (Hold _ _ Hb0) in Hb.
    injection Ha as <-. injection Hb as <-. by apply (Hm s a b).
Qed.

Lemma AddSubmetric_well_linked (m : ptr) (keyValues : string) (h : heap) :
  well_linked h -> well_linked (snd (AddSubmetric m keyValues h)).
Proof.
  intros (Hk & Hl & Hm).
  destruct (AddSubmetric m keyValues h) as [r h'] eqn:Hcall. cbn [snd].
  apply AddSubmetric_effect in Hcall
    as [[-> _] | [(pa & pm & _ & Hpm & Hsink & _ & _)
                 | (pa & pm & sink & _ & Hpm & Hne & _ & Hsink & _ & ->)]].
  - done.
  - destruct (Hk pa pm Hpm) as (sink & Hs & _). congruence.
  - unfold well_linked. split_and!.
    + by apply after_add_kinds.
    + by apply after_add_links.
    + by apply after_add_match.
Qed.

Lemma reachable_well_linked (h : heap) : reachable h -> well_linked h.
Proof.
  induction 1 as [| h name mt vt _ IH | h m keyValues _ IH].
  - unfold well_linked, kinds_supported, links_agree, submetrics_match.
    split_and!; intros ?; intros; done.
  - by apply newMetric_well_linked.
  - by apply AddSubmetric_well_linked.
Qed.

Lemma links_loaded (h : heap) (pa : nat) (pm : Metric.t) :
  links_agree h -> metrics h !! pa = Some pm ->
  exists subs,
    loaded_submetrics h (Metric.Submetrics pm) = Some subs
    /\ Forall (fun sub => Submetric.Parent sub = Some pa) subs.
Proof.
  intros (H1 & _ & _) Hpm.
  assert (forall l, (forall p, p ∈ l -> p ∈ Metric.Submetrics pm) ->
            exists subs, loaded_submetrics h l = Some subs
                         /\ Forall (fun sub => Submetric.Parent sub = Some pa)
                              subs) as Hgen.
  { induction l as [|p l IH]; intros Hsub.
    - by exists [].
    - destruct IH as (subs & Hl & Hall).
      { intros q Hq. apply Hsub, elem_of_cons. by right. }
      destruct (H1 pa pm p Hpm) as (s & sub & -> & Hs & Hpar).
      { apply Hsub, elem_of_cons. by left. }
      exists (sub :: subs). split; [| by constructor].
      unfold loaded_submetrics in *. apply mapM_Some. constructor.
      + done.
      + by apply mapM_Some. }
  by apply Hgen.
Qed.

Lemma NoDup_fmap_through {A B C} (f : A -> B) (g : A -> C) (l : list A) :
  (forall x y, x ∈ l -> y ∈ l -> f x = f y -> g x = g y) ->
  NoDup (g <$> l) -> NoDup (f <$> l).
Proof.
  induction l as [|a l IH]; intros Hfg Hnd; [constructor |].
  rewrite fmap_cons in *. apply NoDup_cons in Hnd as [Hnotin Hnd].
  apply NoDup_cons. split.
  - intros (y & Hy & Hin)%list_elem_of_fmap. apply Hnotin.
    apply list_elem_of_fmap. exists y. split; [| done].
    apply Hfg; [apply elem_of_cons; by left | apply elem_of_cons; by right
               | done].
  - apply IH; [| done]. intros x y Hx Hy.
    apply Hfg; apply elem_of_cons; by right.
Qed.

Lemma loaded_member (h : heap) (ptrs : list ptr) (subs : list Submetric.t)
  (sub : Submetric.t) :
  loaded_submetrics h ptrs = Some subs -> sub ∈ subs ->
  exists p, p ∈ ptrs /\ load_submetric h p = Some sub.
Proof.
  unfold loaded_submetrics. intros H%mapM_Some Hin.
  induction H as [|p y ptrs subs Hp _ IH]; [by apply elem_of_nil in Hin |].
  apply elem_of_cons in Hin as [-> | Hin].
  - exists p. split; [apply elem_of_cons; by left | done].
  - destruct (IH Hin) as (q & Hq & Hl). exists q.
    split; [apply elem_of_cons; by right | done].
Qed.

Lemma example_store_1_reachable : reachable example_store_1.
Proof.
  apply reachable_AddSubmetric.
  apply (reachable_newMetric (mkHeap [] []) "req" Trend [Time]).
  apply reachable_empty.
Qed.

Lemma example_store_2_reachable : reachable example_store_2.
Proof. apply reachable_AddSubmetric, example_store_1_reachable. Qed.

(** X14. In every store that calls of newMetric and AddSubmetric lead to,
    the pointers agree: each entry of a metric's Submetrics is a submetric
    whose Parent is that metric; each submetric is listed by its Parent
    and has a backing Metric whose Sub points back to it; and each metric
    with a Sub is the backing Metric of that submetric. *)
Theorem reachable_links_agree (h : heap) : reachable h -> links_agree h.
Proof. intros H. by destruct (reachable_well_linked h H) as (_ & ? & _). Qed.

Lemma reachable_links_agree_witness : links_agree example_store_1.
Proof.
  apply reachable_links_agree. apply example_store_1_reachable.
Defined.

(** X15. In every such store, each submetric has a parent and a backing
    metric in the store; its Name is the parent's Name followed by its
    Suffix in braces, its Suffix is not empty, its Tags are the tag
    mapping of its Suffix; and its backing metric has the submetric's
    Name, the parent's kind and value type, and the sink of that kind. *)
Theorem reachable_backing_matches_parent
  (h : heap) (sa : nat) (sub : Submetric.t) :
  reachable h ->
  submetrics h !! sa = Some sub ->
  exists pa pm ma bm sink,
    Submetric.Parent sub = Some pa /\ metrics h !! pa = Some pm
    /\ Submetric.Metric sub = Some ma /\ metrics h !! ma = Some bm
    /\ Submetric.Name sub
       = Metric.Name pm +:+ "{" +:+ Submetric.Suffix sub +:+ "}"
    /\ Submetric.Suffix sub <> EmptyString
    /\ Submetric.Tags sub = IntoSampleTags (raw_tags (Submetric.Suffix sub))
    /\ Metric.Name bm = Submetric.Name sub
    /\ Metric.Type_ bm = Metric.Type_ pm
    /\ Metric.Contains bm = Metric.Contains pm
    /\ sink_for (Metric.Type_ pm) = Some sink
    /\ Metric.Sink bm = Some sink.
Proof.
  intros Hr Hs.
  destruct (reachable_well_linked h Hr) as (Hk & (_ & H2 & _) & Hm).
  destruct (H2 sa sub Hs) as (pa & pm & ma & bm & Hpar & Hpm & _ & Hmet & Hbm & _).
  destruct (Hm sa pa ma sub pm bm Hs Hpar Hpm Hmet Hbm)
    as (Hn & Hne & Ht & Hbn & Hbt & Hbc).
  destruct (Hk ma bm Hbm) as (sink & Hsf & Hsink).
  exists pa, pm, ma, bm, sink. rewrite Hbt in Hsf. by split_and!.
Qed.

Lemma reachable_backing_matches_parent_witness :
  exists pa pm ma bm,
    submetrics example_store_1 !! 0%nat
    = Some (Submetric.mk "req{status:200}" "status:200"
              (raw_tags "status:200") (Some 1%nat) (Some 0%nat))
    /\ metrics example_store_1 !! pa = Some pm
    /\ metrics example_store_1 !! ma = Some bm
    /\ Metric.Type_ bm = Metric.Type_ pm
    /\ Metric.Contains bm = Metric.Contains pm.
Proof.
  destruct (reachable_backing_matches_parent example_store_1 0
              (Submetric.mk "req{status:200}" "status:200"
                 (raw_tags "status:200") (Some 1%nat) (Some 0%nat)))
    as (pa & pm & ma & bm & sink & _ & H1 & _ & H2 & _ & _ & _ & _ & H3 & H4 & _).
  - apply example_store_1_reachable.
  - reflexivity.
  - exists pa, pm, ma, bm. split_and!;
      [reflexivity | exact H1 | exact H2 | exact H3 | exact H4].
Defined.

(** X16. In every such store, for a receiver that is nil or a metric of
    the store, AddSubmetric panics exactly when the receiver is nil: on a
    metric of the store it always returns, with a submetric or with one
    of its two errors. *)
Theorem reachable_AddSubmetric_panics_only_on_nil
  (h : heap) (m : ptr) (keyValues : string) :
  reachable h ->
  m = None \/ is_Some (load_metric h m) ->
  (fst (AddSubmetric m keyValues h) = Panic <-> m = None).
Proof.
  intros Hr Hm. destruct (reachable_well_linked h Hr) as (Hk & Hl & _).
  destruct m as [pa|]; [| done].
  destruct Hm as [Hm | [pm Hpm]]; [done |]. cbn [load_metric] in Hpm.
  split; [| done]. intros Hp. exfalso.
  destruct (decide (TrimSpace keyValues = EmptyString)) as [He|Hne].
  { by rewrite (AddSubmetric_empty _ _ _ _ Hpm He) in Hp. }
  rewrite (AddSubmetric_nonempty _ _ _ _ Hpm Hne) in Hp. cbv zeta in Hp.
  destruct (links_loaded h pa pm Hl Hpm) as (subs & Hsubs & _).
  rewrite (find_equal_loaded _ _ _ _ Hsubs) in Hp.
  destruct (find _ subs); [done |].
  destruct (Hk pa pm Hpm) as (sink & Hsink & _). by rewrite Hsink in Hp.
Qed.

Lemma reachable_AddSubmetric_panics_only_on_nil_witness :
  fst (AddSubmetric None "a:1" example_store_1) = Panic
  /\ fst (AddSubmetric (Some 0%nat) "a:1" example_store_1) <> Panic
  /\ fst (AddSubmetric (Some 1%nat) " " example_store_1) <> Panic.
Proof.
  split_and!.
  - apply (reachable_AddSubmetric_panics_only_on_nil example_store_1
             None "a:1");
      [apply example_store_1_reachable | by left | reflexivity].
  - intros Hp.
    apply (reachable_AddSubmetric_panics_only_on_nil example_store_1
             (Some 0%nat) "a:1") in Hp;
      [discriminate | apply example_store_1_reachable |].
    right. eexists. reflexivity.
  - intros Hp.
    apply (reachable_AddSubmetric_panics_only_on_nil example_store_1
             (Some 1%nat) " ") in Hp;
      [discriminate | apply example_store_1_reachable |].
    right. eexists. reflexivity.
Defined.

(** X17. In every such store, the submetrics of one parent have pairwise
    different Suffixes and pairwise different Names. *)
Theorem reachable_distinct_names
  (h : heap) (pa : nat) (pm : Metric.t) (subs : list Submetric.t) :
  reachable h ->
  metrics h !! pa = Some pm ->
  loaded_submetrics h (Metric.Submetrics pm) = Some subs ->
  NoDup (Submetric.Suffix <$> subs) /\ NoDup (Submetric.Name <$> subs).
Proof.
  intros Hr Hpm Hsubs.
  destruct (reachable_well_linked h Hr) as (_ & (H1 & H2 & _) & Hm).
  destruct (reachable_distinct_tags h Hr pa pm Hpm) as (subs' & Hsubs' & Hnd).
  assert (subs' = subs) as -> by congruence.
  assert (forall sub, sub ∈ subs ->
            Submetric.Tags sub = raw_tags (Submetric.Suffix sub)
            /\ Submetric.Name sub
               = Metric.Name pm +:+ "{" +:+ Submetric.Suffix sub +:+ "}")
    as Hfacts.
  { intros sub Hin.
    destruct (loaded_member _ _ _ _ Hsubs Hin) as (p & Hp & Hload).
    destruct (H1 pa pm p Hpm Hp) as (s & sub' & -> & Hs & Hpar).
    cbn [load_submetric] in Hload. assert (sub' = sub) as -> by congruence.
    destruct (H2 s sub Hs) as (a & x & b & z & Hpar' & Ha & _ & Hmet & Hb & _).
    assert (a = pa) as -> by congruence.
    assert (x = pm) as -> by congruence.
    destruct (Hm s pa b sub pm z Hs Hpar Hpm Hmet Hb) as (Hn & _ & Ht & _).
    done. }
  assert (NoDup (Submetric.Suffix <$> subs)) as Hsuffix.
  { apply (NoDup_fmap_through _ Submetric.Tags); [| done].
    intros x y Hx Hy E.
    destruct (Hfacts x Hx) as [-> _]. destruct (Hfacts y Hy) as [-> _].
    by rewrite E. }
  split; [done |].
  apply (NoDup_fmap_through _ Submetric.Suffix); [| done].
  intros x y Hx Hy E.
  destruct (Hfacts x Hx) as [_ Ex]. destruct (Hfacts y Hy) as [_ Ey].
  rewrite Ex, Ey in E.
  apply (inj (String.append _)) in E. simpl in E. injection E as E.
  by apply app_snoc_inj in E as [? _].
Qed.

Lemma reachable_distinct_names_witness :
  NoDup (Submetric.Name
           <$> [Submetric.mk "req{status:200}" "status:200"
                  (raw_tags "status:200") (Some 1%nat) (Some 0%nat);
                Submetric.mk "req{method:GET}" "method:GET"
                  (raw_tags "method:GET") (Some 2%nat) (Some 0%nat)]).
Proof.
  apply (reachable_distinct_names example_store_2 0
           (Metric.mk "req" Trend Time None [] [Some 0%nat; Some 1%nat] None
              (Some TrendSink) false)).
  - apply example_store_2_reachable.
  - reflexivity.
  - reflexivity.
Defined.

(** ** TrimSpace *)

Section TrimSpaceFacts.

Implicit Types (s t w : string) (c : ascii).

Lemma rev_app_spec s acc : String.rev_app s acc = String.rev s +:+ acc.
Proof.
  unfold String.rev. revert acc.
  induction s as [|a s IH]; intros acc; cbn [String.rev_app]; [done |].
  rewrite (IH (String a acc)), (IH (String a EmptyString)).
  by rewrite app_assoc_s.
Qed.

Lemma rev_cons a s : String.rev (String a s) = String.rev s +:+ String a EmptyString.
Proof. unfold String.rev at 1. cbn [String.rev_app]. apply rev_app_spec. Qed.

Lemma rev_app_distr s t : String.rev (s +:+ t) = String.rev t +:+ String.rev s.
Proof.
  induction s as [|a s IH]; simpl.
  - change (String.rev "") with EmptyString.
    induction (String.rev t) as [|x r IHr]; simpl; [done | by rewrite <- IHr].
  - by rewrite !rev_cons, IH, app_assoc_s.
Qed.

Lemma rev_involutive s : String.rev (String.rev s) = s.
Proof.
  induction s as [|a s IH]; [done |].
  rewrite rev_cons, rev_app_distr, IH. done.
Qed.

Lemma trim_left_space_fix s : lead_space s = false -> trim_left_space s = s.
Proof.
  destruct s as [|a [|b [|c t]]]; cbn [lead_space trim_left_space]; try done.
  - by intros ->%orb_false_elim%proj1.
  - intros [-> [-> _]%orb_false_elim]%orb_false_elim. done.
  - intros [-> [-> ->]%orb_false_elim]%orb_false_elim. done.
Qed.

Lemma trim_left_space_rev_fix s :
  lead_space_rev s = false -> trim_left_space_rev s = s.
Proof.
  destruct s as [|a [|b [|c t]]];
    cbn [lead_space_rev trim_left_space_rev]; try done.
  - by intros ->%orb_false_elim%proj1.
  - intros [-> [-> _]%orb_false_elim]%orb_false_elim. done.
  - intros [-> [-> ->]%orb_false_elim]%orb_false_elim. done.
Qed.

Lemma trim_left_space_spec s :
  lead_space (trim_left_space s) = false
  /\ exists w, s = w +:+ trim_left_space s.
Proof.
  assert (forall n s, (String.length s <= n)%nat ->
            lead_space (trim_left_space s) = false
            /\ exists w, s = w +:+ trim_left_space s) as H.
  { clear s. induction n as [|n IH]; intros s Hn.
    - destruct s; [| cbn in Hn; lia]. split; [done | by exists EmptyString].
    - destruct s as [|a t]; [split; [done | by exists EmptyString] |].
      cbn [String.length] in Hn. cbn [trim_left_space].
      destruct (ascii_space (N_of_ascii a)) eqn:Ea.
      { destruct (IH t ltac:(lia)) as [Hl [w Hw]]. split; [done |].
        exists (String a w). simpl. by rewrite <- Hw. }
      destruct t as [|b t2].
      { split; [cbn; by rewrite Ea | by exists EmptyString]. }
      cbn [String.length] in Hn.
      destruct (space2 (N_of_ascii a) (N_of_ascii b)) eqn:Eb.
      { destruct (IH t2 ltac:(lia)) as [Hl [w Hw]]. split; [done |].
        exists (String a (String b w)). simpl. by rewrite <- Hw. }
      destruct t2 as [|c t3].
      { split; [cbn; by rewrite Ea, Eb | by exists EmptyString]. }
      cbn [String.length] in Hn.
      destruct (space3 (N_of_ascii a) (N_of_ascii b) (N_of_ascii c)) eqn:Ec.
      { destruct (IH t3 ltac:(lia)) as [Hl [w Hw]]. split; [done |].
        exists (String a (String b (String c w))). simpl. by rewrite <- Hw. }
      split; [cbn; by rewrite Ea, Eb, Ec | by exists EmptyString]. }
  by apply (H (String.length s)).
Qed.

Lemma trim_left_space_rev_spec s :
  lead_space_rev (trim_left_space_rev s) = false
  /\ exists w, s = w +:+ trim_left_space_rev s.
Proof.
  assert (forall n s, (String.length s <= n)%nat ->
            lead_space_rev (trim_left_space_rev s) = false
            /\ exists w, s = w +:+ trim_left_space_rev s) as H.
  { clear s. induction n as [|n IH]; intros s Hn.
    - destruct s; [| cbn in Hn; lia]. split; [done | by exists EmptyString].
    - destruct s as [|a t]; [split; [done | by exists EmptyString] |].
      cbn [String.length] in Hn. cbn [trim_left_space_rev].
      destruct (ascii_space (N_of_ascii a)) eqn:Ea.
      { destruct (IH t ltac:(lia)) as [Hl [w Hw]]. split; [done |].
        exists (String a w). simpl. by rewrite <- Hw. }
      destruct t as [|b t2].
      { split; [cbn; by rewrite Ea | by exists EmptyString]. }
      cbn [String.length] in Hn.
      destruct (space2 (N_of_ascii b) (N_of_ascii a)) eqn:Eb.
      { destruct (IH t2 ltac:(lia)) as [Hl [w Hw]]. split; [done |].
        exists (String a (String b w)). simpl. by rewrite <- Hw. }
      destruct t2 as [|c t3].
      { split; [cbn; by rewrite Ea, Eb | by exists EmptyString]. }
      cbn [String.length] in Hn.
      destruct (space3 (N_of_ascii c) (N_of_ascii b) (N_of_ascii a)) eqn:Ec.
      { destruct (IH t3 ltac:(lia)) as [Hl [w Hw]]. split; [done |].
        exists (String a (String b (String c w))). simpl. by rewrite <- Hw. }
      split; [cbn; by rewrite Ea, Eb, Ec | by exists EmptyString]. }
  by apply (H (String.length s)).
Qed.

Lemma lead_space_app s w : lead_space s = true -> lead_space (s +:+ w) = true.
Proof.
  destruct s as [|a [|b [|c t]]]; simpl; try done.
  - rewrite orb_false_r. by intros ->.
  - rewrite orb_false_r.
    intros [-> | ->]%orb_true_iff; [done | by rewrite orb_true_r].
Qed.

(** The trimmed string is a fixed point of TrimSpace: it neither begins
    nor ends with a white-space rune. *)
Lemma TrimSpace_ends s :
  lead_space (TrimSpace s) = false
  /\ lead_space_rev (String.rev (TrimSpace s)) = false.
Proof.
  unfold TrimSpace.
  destruct (trim_left_space_spec s) as [Hl _].
  destruct (trim_left_space_rev_spec (String.rev (trim_left_space s)))
    as [Hr [w Hw]].
  rewrite rev_involutive. split; [| done].
  destruct (lead_space (String.rev _)) eqn:E; [| done].
  apply (f_equal String.rev) in Hw.
  rewrite rev_involutive, rev_app_distr in Hw.
  apply (lead_space_app _ (String.rev w)) in E. congruence.
Qed.

Lemma TrimSpace_fix s :
  lead_space s = false -> lead_space_rev (String.rev s) = false ->
  TrimSpace s = s.
Proof.
  intros Hl Hr. unfold TrimSpace.
  rewrite (trim_left_space_fix s Hl), (trim_left_space_rev_fix _ Hr).
  apply rev_involutive.
Qed.

Lemma TrimSpace_idempotent s : TrimSpace (TrimSpace s) = TrimSpace s.
Proof. destruct (TrimSpace_ends s). by apply TrimSpace_fix. Qed.

End TrimSpaceFacts.

Section PlainBytes.

Implicit Types (s t w p : string) (c a b : ascii).

















End PlainBytes.



Lemma NoDup_fmap_same {A B} (f : A -> B) (l : list A) (x y : A) :
  NoDup (f <$> l) -> x ∈ l -> y ∈ l -> f x = f y -> x = y.
Proof.
  induction l as [|a l IH]; intros Hnd Hx Hy E; [by apply elem_of_nil in Hx |].
  rewrite fmap_cons in Hnd. apply NoDup_cons in Hnd as [Hnotin Hnd].
  apply elem_of_cons in Hx as [-> | Hx]; apply elem_of_cons in Hy as [-> | Hy].
  - done.
  - exfalso. apply Hnotin. rewrite E. by apply list_elem_of_fmap_2.
  - exfalso. apply Hnotin. rewrite <- E. by apply list_elem_of_fmap_2.
  - by apply IH.
Qed.

Lemma loaded_member_of (h : heap) (ptrs : list ptr)
  (subs : list Submetric.t) (p : ptr) (sub : Submetric.t) :
  loaded_submetrics h ptrs = Some subs ->
  p ∈ ptrs -> load_submetric h p = Some sub -> sub ∈ subs.
Proof.
  unfold loaded_submetrics. intros H%mapM_Some Hp Hl.
  induction H as [|q y ptrs subs Hq _ IH]; [by apply elem_of_nil in Hp |].
  apply elem_of_cons in Hp as [-> | Hp].
  - assert (y = sub) as -> by congruence. apply elem_of_cons. by left.
  - apply elem_of_cons. right. by apply IH.
Qed.

Lemma reachable_suffix_trimmed (h : heap) :
  reachable h ->
  forall s sub, submetrics h !! s = Some sub ->
                TrimSpace (Submetric.Suffix sub) = Submetric.Suffix sub.
Proof.
  induction 1 as [| h name mt vt _ IH | h m keyValues _ IH]; intros s sub Hs.
  - done.
  - unfold newMetric in Hs. destruct (sink_for mt); by apply (IH s).
  - destruct (AddSubmetric m keyValues h) as [r h'] eqn:Hcall.
    cbn [snd] in Hs.
    apply AddSubmetric_effect in Hcall
      as [[-> _] | [(pa & pm & _ & _ & _ & _ & ->)
                   | (pa & pm & sink & _ & _ & _ & _ & _ & _ & ->)]].
    + by apply (IH s).
    + cbn [submetrics] in Hs.
      apply lookup_app_Some in Hs as [Hs | [_ Hs]]; [by apply (IH s) |].
      destruct (s - length (submetrics h))%nat; [| done].
      injection Hs as <-. apply TrimSpace_idempotent.
    + unfold store_after_add in Hs. cbn [submetrics] in Hs.
      apply lookup_app_Some in Hs as [Hs | [_ Hs]]; [by apply (IH s) |].
      destruct (s - length (submetrics h))%nat; [| done].
      injection Hs as <-. apply TrimSpace_idempotent.
Qed.

(** ** White space around the clause, and clauses read back *)

(** X18. White space around the clause makes no difference: a call with
    the trimmed clause does exactly what the call with the clause does. *)
Theorem AddSubmetric_ignores_outer_space (m : ptr) (keyValues : string)
  (h : heap) :
  AddSubmetric m (TrimSpace keyValues) h = AddSubmetric m keyValues h.
Proof. unfold AddSubmetric. by rewrite TrimSpace_idempotent. Qed.

(** X19. In every store that calls of newMetric and AddSubmetric lead to,
    the Suffix of a submetric stands for that submetric: adding it to the
    parent again fails as a duplicate, the error names this very
    submetric, and the store is unchanged. *)
Theorem reachable_readd_suffix
  (h : heap) (sa pa : nat) (sub : Submetric.t) (pm : Metric.t) :
  reachable h ->
  submetrics h !! sa = Some sub ->
  Submetric.Parent sub = Some pa ->
  metrics h !! pa = Some pm ->
  AddSubmetric (Some pa) (Submetric.Suffix sub) h
  = (Return None
       (Some (errDuplicate (Submetric.Suffix sub) (Metric.Name pm)
                (Submetric.Name sub))), h).
Proof.
  intros Hr Hs Hpar Hpm.
  destruct (reachable_well_linked h Hr) as (_ & Hl & Hm).
  pose proof Hl as (_ & H2 & _).
  pose proof (reachable_suffix_trimmed h Hr sa sub Hs) as Htrim.
  destruct (H2 sa sub Hs) as (a & x & b & z & Hpar' & Ha & Hin & Hmet & Hb & _).
  assert (a = pa) as -> by congruence.
  assert (x = pm) as -> by congruence.
  destruct (Hm sa pa b sub pm z Hs Hpar Hpm Hmet Hb) as (_ & Hne & Htags & _).
  destruct (reachable_distinct_tags h Hr pa pm Hpm) as (subs & Hsubs & Hnd).
  assert (sub ∈ subs) as Hsub by (by eapply loaded_member_of).
  destruct (find_equal_found h _ subs
              (IntoSampleTags (raw_tags (Submetric.Suffix sub))) sub Hsubs Hsub)
    as (sm & Hscan & Hsm & Heq).
  { by apply IsEqual_true. }
  apply IsEqual_true in Heq. rewrite <- Htags in Heq.
  assert (sm = sub) as -> by (by eapply NoDup_fmap_same).
  rewrite AddSubmetric_nonempty with (pm := pm); [| done | by rewrite Htrim].
  cbv zeta. rewrite Htrim. by rewrite Hscan.
Qed.

Lemma reachable_readd_suffix_witness :
  AddSubmetric (Some 0%nat) "status:200" example_store_1
  = (Return None (Some (errDuplicate "status:200" "req" "req{status:200}")),
     example_store_1).
Proof.
  apply (reachable_readd_suffix example_store_1 0 0
           (Submetric.mk "req{status:200}" "status:200"
              (raw_tags "status:200") (Some 1%nat) (Some 0%nat))
           (Metric.mk "req" Trend Time None [] [Some 0%nat] None
              (Some TrendSink) false)).
  - apply example_store_1_reachable.
  - reflexivity.
  - reflexivity.
  - reflexivity.
Defined.





(** ** Submetrics of backing metrics, and newMetric *)

(** X22. Nothing stops the backing metric of a submetric from getting
    submetrics of its own: after a successful call, a call on the backing
    metric with a clause that is not empty succeeds too, and the name of
    the new submetric carries both clauses. *)
Theorem AddSubmetric_on_backing_metric
  (h h1 : heap) (pa sa : nat) (pm : Metric.t) (kv1 kv2 : string) :
  metrics h !! pa = Some pm ->
  AddSubmetric (Some pa) kv1 h = (Return (Some sa) None, h1) ->
  TrimSpace kv2 <> EmptyString ->
  exists h2 sub,
    AddSubmetric (Some (length (metrics h))) kv2 h1
    = (Return (Some (S sa)) None, h2)
    /\ submetrics h2 !! S sa = Some sub
    /\ Submetric.Parent sub = Some (length (metrics h))
    /\ Submetric.Name sub
       = (Metric.Name pm +:+ "{" +:+ TrimSpace kv1 +:+ "}")
         +:+ "{" +:+ TrimSpace kv2 +:+ "}".
Proof.
  intros Hpm Hcall Hne2.
  apply AddSubmetric_effect in Hcall
    as [[_ Hf] | [(? & ? & _ & _ & _ & [=] & _)
                 | (pa' & pm' & sink & [= <-] & Hpm' & Hne1 & _ & Hsink
                    & [= ->] & ->)]]; [done |].
  assert (pm' = pm) as -> by congruence.
  pose proof (after_add_metric_new h pa pm (TrimSpace kv1) sink) as Hbm.
  assert (length (submetrics (store_after_add h pa pm (TrimSpace kv1) sink))
          = S (length (submetrics h))) as Hlen.
  { unfold store_after_add. cbn [submetrics]. rewrite length_app. cbn. lia. }
  rewrite (AddSubmetric_nonempty _ _ _ _ Hbm Hne2). cbv zeta.
  cbn [new_backing Metric.Submetrics Metric.Type_ Metric.Name find_equal].
  rewrite Hsink, Hlen. eexists _, _. split; [reflexivity |].
  cbn [submetrics].
  split; [apply list_lookup_middle; by rewrite Hlen | done].
Qed.

Lemma AddSubmetric_on_backing_metric_witness :
  exists h2 sub,
    AddSubmetric (Some 1%nat) "method:GET" example_store_1
    = (Return (Some 1%nat) None, h2)
    /\ submetrics h2 !! 1%nat = Some sub
    /\ Submetric.Name sub = "req{status:200}{method:GET}".
Proof.
  destruct (AddSubmetric_on_backing_metric example_store example_store_1 0 0
              (Metric.mk "req" Trend Time None [] [] None (Some TrendSink)
                 false)
              "status:200" "method:GET" eq_refl eq_refl)
    as (h2 & sub & H1 & H2 & _ & H3); [discriminate |].
  exists h2, sub. split_and!; [exact H1 | exact H2 | exact H3].
Defined.

(** X23. A metric just made by newMetric, of a supported kind, takes any
    clause that is not empty: the call succeeds, and the backing metric
    has the value type newMetric gave the parent, the first of the values
    passed or Default when none was passed. *)
Theorem newMetric_then_AddSubmetric
  (name : string) (mt : MetricType) (vt : list ValueType) (h : heap)
  (keyValues : string) :
  is_Some (sink_for mt) ->
  TrimSpace keyValues <> EmptyString ->
  let pa := length (metrics h) in
  exists h' bm,
    fst (newMetric name mt vt h) = Some pa
    /\ AddSubmetric (Some pa) keyValues (snd (newMetric name mt vt h))
       = (Return (Some (length (submetrics h))) None, h')
    /\ metrics h' !! S pa = Some bm
    /\ Metric.Name bm = name +:+ "{" +:+ TrimSpace keyValues +:+ "}"
    /\ Metric.Type_ bm = mt
    /\ Metric.Contains bm = hd Default vt
    /\ Metric.Sink bm = sink_for mt.
Proof.
  intros [sink Hsink] Hne pa. unfold newMetric. rewrite Hsink.
  cbn [alloc_metric fst snd].
  set (pm := Metric.mk name mt _ None [] [] None (Some sink) false).
  assert (metrics (mkHeap (metrics h ++ [pm]) (submetrics h)) !! pa = Some pm)
    as Hpm.
  { cbn [metrics]. by apply list_lookup_middle. }
  rewrite (AddSubmetric_nonempty _ _ _ _ Hpm Hne). cbv zeta.
  cbn [Metric.Submetrics Metric.Type_ Metric.Name Metric.Contains pm
       find_equal metrics submetrics].
  rewrite Hsink. eexists _, _. split_and!; [done | done | ..].
  - cbn [metrics]. apply list_lookup_middle.
    rewrite length_alter, length_app. cbn. subst pa. lia.
  - done.
  - done.
  - cbn. by destruct vt.
  - done.
Qed.

Lemma newMetric_then_AddSubmetric_witness :
  exists h' bm,
    AddSubmetric (Some 0%nat) "a:1"
      (snd (newMetric "data_sent" Counter [Data; Time] (mkHeap [] [])))
    = (Return (Some 0%nat) None, h')
    /\ metrics h' !! 1%nat = Some bm
    /\ Metric.Contains bm = Data.
Proof.
  destruct (newMetric_then_AddSubmetric "data_sent" Counter [Data; Time]
              (mkHeap [] []) "a:1")
    as (h' & bm & _ & H1 & H2 & _ & _ & H3 & _);
    [by eexists | discriminate |].
  exists h', bm. split_and!; [exact H1 | exact H2 | exact H3].
Defined.

(** X24. newMetric stores no metric of an unsupported kind: in every store
    that calls of newMetric and AddSubmetric lead to, each metric has one
    of the four kinds and the sink of its kind. *)
Theorem reachable_kinds_supported (h : heap) :
  reachable h -> kinds_supported h.
Proof. intros H. by destruct (reachable_well_linked h H) as (? & _). Qed.

Lemma reachable_kinds_supported_witness :
  kinds_supported
    (snd (newMetric "odd" (OtherMetricType 7) [] example_store_1)).
Proof.
  apply reachable_kinds_supported. apply reachable_newMetric.
  apply example_store_1_reachable.
Defined.
